(** * Earthquake payouts: a shallow embedding of [earthquakes/tools.py]

    The three functions of [src/earthquakes/tools.py] are embedded here:
    [get_haversine_distance], [compute_payouts] and [compute_burning_cost].

    Numbers.  Python floats are modelled by exact numbers: rationals [Q]
    where the code only compares, adds and divides them (the payout engine
    and the burning cost, which stay executable), reals [R] where it calls
    trigonometric functions (the haversine distance).  NaN, infinities,
    signed zeros and rounding are outside these two models; the last part,
    [F64], runs [get_haversine_distance] on IEEE 754 binary64 numbers for
    the statements that are about them.

    The query of several locations of [src/earthquakes/usgs_api.py] and the
    choice of the event identifier are embedded as well.

    Objects.  A [pandas.DataFrame] is a mutable object: the store maps
    locations to frames, [DataFrame.copy] and [DataFrame.dropna] allocate,
    and a column assignment writes to the frame it is applied to.

    Exceptions.  A raising call returns [Raise e]. *)

From Stdlib Require Import Ascii ZArith QArith Qminmax Reals Lra Lia.
From Stdlib Require Lqa.
From Stdlib Require PrimFloat FloatOps FloatAxioms SpecFloat.
From stdpp Require Import gmap list option strings.

Local Open Scope Z_scope.

(** ** Exceptions *)

Inductive PyExn : Type :=
| ValueError
| KeyError
| AttributeError.

Inductive result (A : Type) : Type :=
| Ok (a : A)
| Raise (e : PyExn).
Arguments Ok {A} a.
Arguments Raise {A} e.

Definition result_bind {A B} (m : result A) (k : A → result B) : result B :=
  match m with
  | Ok a => k a
  | Raise e => Raise e
  end.

Fixpoint result_mapM {A B} (f : A → result B) (l : list A) : result (list B) :=
  match l with
  | [] => Ok []
  | x :: l' =>
      result_bind (f x) (λ y, result_bind (result_mapM f l') (λ ys, Ok (y :: ys)))
  end.

(** ** Constants of the module *)

Definition EARTH_RADIUS : Z := 6378.

(** ** Python built-ins on rationals *)

Module Py.

(** [item > maxitem] *)
Definition gt (x y : Q) : bool := negb (Qle_bool x y).

(** [max(iterable)]: keeps the first item and replaces it by each later
    item that is strictly greater; an empty iterable has no maximum (the
    call raises, the source guards it). *)
Definition max (l : list Q) : option Q :=
  match l with
  | [] => None
  | x :: l' => Some (fold_left (λ maxitem item, if gt item maxitem then item else maxitem) l' x)
  end.

(** [sum(iterable)], from the integer 0, left to right. *)
Definition sum (l : list Q) : Q := fold_left Qplus l (inject_Z 0).

(** [range(start, stop)] *)
Definition range (start stop : Z) : list Z := seqZ start (stop - start).

End Py.

(** ** Data model of the payout engine *)

(** A parsed timestamp, by its calendar fields. *)
Record Timestamp : Type := mkTimestamp {
  ts_year : Z;
  ts_month : Z;
  ts_day : Z;
  ts_nanos : Z
}.

(** A cell of the [time] column. *)
Inductive TimeCell : Type :=
| Datetime (t : Timestamp)   (* a datetime64 value *)
| NaT                        (* the missing datetime *)
| Text (s : string)          (* a string of an object column *)
| Missing.                   (* None in an object column *)

Record Row : Type := mkRow {
  row_time : TimeCell;
  row_mag : Q;
  row_depth : Q;
  row_latitude : Q;
  row_longitude : Q
}.

(** A payout rule, the dict [{"radius": _, "magnitude": _, "payout": _}]. *)
Record PayoutRule : Type := mkRule {
  radius : Q;
  magnitude : Q;
  payout : Q
}.

(** A frame: its rows, and the two derived columns when they are present. *)
Record DataFrame : Type := mkFrame {
  df_rows : list Row;
  df_payout : option (list Q);
  df_year : option (list Z)
}.

Definition loc : Type := positive.

(** ** The store and its monad *)

Definition St (A : Type) : Type := gmap loc DataFrame → result (A * gmap loc DataFrame).

Global Instance St_ret : MRet St := λ A a σ, Ok (a, σ).
Global Instance St_bind : MBind St := λ A B k m σ,
  match m σ with
  | Ok (a, σ') => k a σ'
  | Raise e => Raise e
  end.

Definition raise {A} (e : PyExn) : St A := λ _, Raise e.

Definition load (l : loc) : St DataFrame := λ σ,
  match σ !! l with
  | Some df => Ok (df, σ)
  | None => Raise KeyError
  end.

Definition alloc (df : DataFrame) : St loc := λ σ,
  let l := fresh (dom σ) in Ok (l, <[l := df]> σ).

Definition write (l : loc) (df : DataFrame) : St unit := λ σ,
  match σ !! l with
  | Some _ => Ok (tt, <[l := df]> σ)
  | None => Raise KeyError
  end.

Definition of_option {A} (e : PyExn) (o : option A) : St A :=
  match o with
  | Some a => mret a
  | None => raise e
  end.

(** ** pandas operations used by [compute_payouts] *)

Definition is_datetime_cell (c : TimeCell) : bool :=
  match c with
  | Datetime _ | NaT => true
  | Text _ | Missing => false
  end.

Definition notna (c : TimeCell) : bool :=
  match c with
  | Datetime _ | Text _ => true
  | NaT | Missing => false
  end.

Definition set_row_time (r : Row) (c : TimeCell) : Row :=
  mkRow c (row_mag r) (row_depth r) (row_latitude r) (row_longitude r).

Fixpoint filter_mask {A} (mask : list bool) (l : list A) : list A :=
  match mask, l with
  | b :: mask', x :: l' => if b then x :: filter_mask mask' l' else filter_mask mask' l'
  | _, _ => []
  end.

Module pd.

(** [pd.api.types.is_datetime64_any_dtype(col)]: the column has a
    datetime64 dtype, that is, each cell is a timestamp or NaT.  On such a
    column [to_datetime] changes nothing, so that the dtype of a column
    whose cells are all timestamps does not matter. *)
Definition is_datetime64_any_dtype (col : list TimeCell) : bool :=
  forallb is_datetime_cell col.

Section to_datetime.
(** The string parser of pandas, which is not part of the repository:
    [parse_datetime s] is the timestamp that [pd.to_datetime] reads from the
    string [s] of the column at hand, and [None] when it reads none.  pandas
    chooses the format for a column from its first string, so the parser
    stands for the one of one column; a string in another format than the
    column's is one that this parser refuses. *)
Variable parse_datetime : string → option Timestamp.

Definition to_datetime_cell (c : TimeCell) : TimeCell :=
  match c with
  | Datetime t => Datetime t
  | NaT => NaT
  | Text s =>
      match parse_datetime s with
      | Some t => Datetime t
      | None => NaT
      end
  | Missing => NaT
  end.

(** [pd.to_datetime(col, errors="coerce")] *)
Definition to_datetime (col : list TimeCell) : list TimeCell :=
  map to_datetime_cell col.
End to_datetime.

(** [df.copy()] *)
Definition copy (l : loc) : St loc :=
  df ← load l; alloc df.

(** [df["time"]] *)
Definition get_time (l : loc) : St (list TimeCell) :=
  df ← load l; mret (map row_time (df_rows df)).

(** [df["time"] = col] *)
Definition set_time (l : loc) (col : list TimeCell) : St unit :=
  df ← load l;
  if decide (length col = length (df_rows df))
  then write l (mkFrame (zip_with set_row_time (df_rows df) col) (df_payout df) (df_year df))
  else raise ValueError.

(** [df.dropna(subset=["time"])], a new frame. *)
Definition dropna_time (l : loc) : St loc :=
  df ← load l;
  let mask := map (λ r, notna (row_time r)) (df_rows df) in
  alloc (mkFrame (filter_mask mask (df_rows df))
                 (filter_mask mask <$> df_payout df)
                 (filter_mask mask <$> df_year df)).

(** [df.apply(f, axis=1)]: [f] on each row, in order; a frame without rows
    gives an empty column. *)
Definition apply_rows {A} (f : Row → A) (l : loc) : St (list A) :=
  df ← load l; mret (map f (df_rows df)).

(** [df["payout"] = col] *)
Definition set_payout (l : loc) (col : list Q) : St unit :=
  df ← load l;
  if decide (length col = length (df_rows df))
  then write l (mkFrame (df_rows df) (Some col) (df_year df))
  else raise ValueError.

(** [df["year"] = col] *)
Definition set_year (l : loc) (col : list Z) : St unit :=
  df ← load l;
  if decide (length col = length (df_rows df))
  then write l (mkFrame (df_rows df) (df_payout df) (Some col))
  else raise ValueError.

(** [col.dt.year]: the accessor exists on datetime columns only, and the
    year of NaT is not an integer; after [dropna] every cell is a timestamp. *)
Definition dt_year_cell (c : TimeCell) : option Z :=
  match c with
  | Datetime t => Some (ts_year t)
  | _ => None
  end.

Definition dt_year (col : list TimeCell) : St (list Z) :=
  of_option AttributeError (mapM dt_year_cell col).

(** [df.groupby("year")["payout"]]: the payouts of each year, in row order. *)
Definition group (keys : list Z) (vals : list Q) : gmap Z (list Q) :=
  foldr (λ kv g, <[kv.1 := kv.2 :: default [] (g !! kv.1)]> g) ∅ (zip keys vals).

Definition groupby_year_payout (l : loc) : St (gmap Z (list Q)) :=
  df ← load l;
  years ← of_option KeyError (df_year df);
  payouts ← of_option KeyError (df_payout df);
  mret (group years payouts).

(** [.max()] of one group. *)
Definition series_max (l : list Q) : option Q :=
  match l with
  | [] => None
  | x :: l' => Some (fold_left Qmax l' x)
  end.

(** [.max()] of the grouped column, then [.to_dict()]. *)
Definition groupby_max (g : gmap Z (list Q)) : gmap Z Q := omap series_max g.

End pd.

(** ** [compute_payouts] *)

Section compute_payouts.
Variable parse_datetime : string → option Timestamp.

(** The inner function [compute_payout(row)]. *)
Definition qualifies (row : Row) (rule : PayoutRule) : bool :=
  Qle_bool (row_depth row) (radius rule) && Qle_bool (magnitude rule) (row_mag row).

Definition compute_payout (payout_rules : list PayoutRule) (row : Row) : Q :=
  let payouts := map payout (filter (qualifies row) payout_rules) in
  match payouts with
  | [] => 0%Q
  | _ => default 0%Q (Py.max payouts)
  end.

Definition compute_payouts (earthquake_data : loc) (payout_rules : list PayoutRule)
  : St (gmap Z Q) :=
  earthquake_data_copy ← pd.copy earthquake_data;
  time ← pd.get_time earthquake_data_copy;
  (if negb (pd.is_datetime64_any_dtype time)
   then pd.set_time earthquake_data_copy (pd.to_datetime parse_datetime time)
   else mret tt);;
  earthquake_data_copy ← pd.dropna_time earthquake_data_copy;
  payouts ← pd.apply_rows (compute_payout payout_rules) earthquake_data_copy;
  pd.set_payout earthquake_data_copy payouts;;
  time ← pd.get_time earthquake_data_copy;
  years ← pd.dt_year time;
  pd.set_year earthquake_data_copy years;;
  grouped ← pd.groupby_year_payout earthquake_data_copy;
  let yearly_totals := pd.groupby_max grouped in
  mret yearly_totals.

End compute_payouts.

(** * Properties *)

(** ** Maxima of lists of rationals *)

(** [is_max_of v l]: [v] is an element of [l] that no element exceeds. *)
Definition is_max_of (v : Q) (l : list Q) : Prop :=
  v ∈ l ∧ ∀ x, x ∈ l → (x <= v)%Q.

Lemma py_max_step_spec (m x : Q) :
  let v := if Py.gt x m then x else m in
  (v = m ∨ v = x) ∧ (m <= v)%Q ∧ (x <= v)%Q.
Proof.
  unfold Py.gt. destruct (Qle_bool x m) eqn:E; simpl.
  - apply Qle_bool_iff in E. split; [by left|]. split; [apply Qle_refl | exact E].
  - assert (¬ (x <= m)%Q) as Hn by (rewrite <- Qle_bool_iff; congruence).
    apply Qnot_le_lt in Hn. split; [by right|].
    split; [by apply Qlt_le_weak | apply Qle_refl].
Qed.

(** A fold whose step returns the greater of its two arguments returns a
    maximum of the list. *)
Lemma fold_left_max_spec (f : Q → Q → Q) :
  (∀ m x, (f m x = m ∨ f m x = x) ∧ (m <= f m x)%Q ∧ (x <= f m x)%Q) →
  ∀ l x, is_max_of (fold_left f l x) (x :: l).
Proof.
  intros Hf l. induction l as [|y l IH]; intros x; simpl.
  - split; [apply list_elem_of_here|].
    intros z Hz. apply list_elem_of_singleton in Hz as ->. apply Qle_refl.
  - destruct (Hf x y) as (Hsel & Hx & Hy).
    destruct (IH (f x y)) as [Hin Hle].
    assert (f x y <= fold_left f l (f x y))%Q as Hm by (apply Hle; left).
    split.
    + apply elem_of_cons in Hin as [-> | Hin].
      * destruct Hsel as [-> | ->]; [left | right; left].
      * do 2 right. exact Hin.
    + intros z Hz.
      apply elem_of_cons in Hz as [-> | Hz]; [eapply Qle_trans; eauto|].
      apply elem_of_cons in Hz as [-> | Hz]; [eapply Qle_trans; eauto|].
      apply Hle. by right.
Qed.

Lemma py_max_spec (l : list Q) (v : Q) :
  Py.max l = Some v → is_max_of v l.
Proof.
  destruct l as [|x l]; simpl; [done|].
  intros [= <-].
  apply (fold_left_max_spec (λ maxitem item, if Py.gt item maxitem then item else maxitem)).
  intros m y. apply py_max_step_spec.
Qed.

Lemma py_max_is_Some (l : list Q) : l ≠ [] → is_Some (Py.max l).
Proof. destruct l; [done | intros _; simpl; eauto]. Qed.

Lemma Qmax_step_spec (m x : Q) :
  (Qmax m x = m ∨ Qmax m x = x) ∧ (m <= Qmax m x)%Q ∧ (x <= Qmax m x)%Q.
Proof.
  split; [|split; [apply Q.le_max_l | apply Q.le_max_r]].
  unfold Qmax, GenericMinMax.gmax. destruct (m ?= x)%Q; auto.
Qed.

Lemma series_max_spec (l : list Q) (v : Q) :
  pd.series_max l = Some v → is_max_of v l.
Proof.
  destruct l as [|x l]; simpl; [done|].
  intros [= <-]. apply (fold_left_max_spec Qmax), Qmax_step_spec.
Qed.

Lemma series_max_None (l : list Q) : pd.series_max l = None ↔ l = [].
Proof. destruct l; simpl; split; congruence. Qed.

(** ** Grouping *)

(** The values paired with key [k], in order. *)
Definition select (k : Z) (keys : list Z) (vals : list Q) : list Q :=
  (filter (λ kv, kv.1 = k) (zip keys vals)).*2.

Lemma lookup_group (k : Z) (keys : list Z) (vals : list Q) :
  pd.group keys vals !! k =
  match select k keys vals with
  | [] => None
  | l => Some l
  end.
Proof.
  unfold pd.group, select.
  induction (zip keys vals) as [|[k' v] l IH]; simpl; [apply lookup_empty|].
  rewrite filter_cons. simpl. case_decide as Hk.
  - subst k'. rewrite lookup_insert_eq. simpl. rewrite IH. f_equal. f_equal.
    change (list_fmap (Z * Q)%type Q snd (filter (λ kv : Z * Q, kv.1 = k) l))
      with ((filter (λ kv : Z * Q, kv.1 = k) l).*2).
    by destruct ((filter (λ kv : Z * Q, kv.1 = k) l).*2).
  - by rewrite lookup_insert_ne.
Qed.

Lemma lookup_groupby_max (k : Z) (keys : list Z) (vals : list Q) :
  pd.groupby_max (pd.group keys vals) !! k = pd.series_max (select k keys vals).
Proof.
  unfold pd.groupby_max. rewrite lookup_omap, lookup_group.
  by destruct (select k keys vals).
Qed.

(** ** Runs of the store operations *)

Lemma bind_run {A B} (m : St A) (k : A → St B) σ a σ' :
  m σ = Ok (a, σ') → (m ≫= k) σ = k a σ'.
Proof. unfold mbind, St_bind. by intros ->. Qed.

Lemma load_run σ l df : σ !! l = Some df → load l σ = Ok (df, σ).
Proof. unfold load. by intros ->. Qed.

Lemma write_run σ l df df' :
  σ !! l = Some df → write l df' σ = Ok (tt, <[l := df']> σ).
Proof. unfold write. by intros ->. Qed.

Lemma fresh_lookup (σ : gmap loc DataFrame) : σ !! fresh (dom σ) = None.
Proof. apply not_elem_of_dom, is_fresh. Qed.

(** The second allocation of a call is new to the store of the caller too. *)
Lemma fresh_lookup_insert (σ : gmap loc DataFrame) (df : DataFrame) :
  let l1 := fresh (dom σ) in
  let l2 := fresh (dom (<[l1 := df]> σ)) in
  σ !! l2 = None ∧ l1 ≠ l2.
Proof.
  intros l1 l2. apply (lookup_insert_None σ l1 l2 df). apply fresh_lookup.
Qed.

(** One step of a run: the first action of a sequence returns. *)
Tactic Notation "run_step" uconstr(H) := rewrite (bind_run _ _ _ _ _ H).

Lemma copy_run σ l df :
  σ !! l = Some df →
  pd.copy l σ = Ok (fresh (dom σ), <[fresh (dom σ) := df]> σ).
Proof. intros H. unfold pd.copy. by rewrite (bind_run _ _ _ _ _ (load_run _ _ _ H)). Qed.

Lemma get_time_run σ l df :
  σ !! l = Some df → pd.get_time l σ = Ok (map row_time (df_rows df), σ).
Proof. intros H. unfold pd.get_time. by rewrite (bind_run _ _ _ _ _ (load_run _ _ _ H)). Qed.

Lemma set_time_run σ l df col :
  σ !! l = Some df → length col = length (df_rows df) →
  pd.set_time l col σ
  = Ok (tt, <[l := mkFrame (zip_with set_row_time (df_rows df) col)
                           (df_payout df) (df_year df)]> σ).
Proof.
  intros H Hlen. unfold pd.set_time.
  rewrite (bind_run _ _ _ _ _ (load_run _ _ _ H)).
  rewrite decide_True by done. by eapply write_run.
Qed.

Lemma dropna_time_run σ l df :
  σ !! l = Some df →
  let mask := map (λ r, notna (row_time r)) (df_rows df) in
  pd.dropna_time l σ
  = Ok (fresh (dom σ),
        <[fresh (dom σ) := mkFrame (filter_mask mask (df_rows df))
                                   (filter_mask mask <$> df_payout df)
                                   (filter_mask mask <$> df_year df)]> σ).
Proof. intros H. unfold pd.dropna_time. by rewrite (bind_run _ _ _ _ _ (load_run _ _ _ H)). Qed.

Lemma apply_rows_run {A} (f : Row → A) σ l df :
  σ !! l = Some df → pd.apply_rows f l σ = Ok (map f (df_rows df), σ).
Proof. intros H. unfold pd.apply_rows. by rewrite (bind_run _ _ _ _ _ (load_run _ _ _ H)). Qed.

Lemma set_payout_run σ l df col :
  σ !! l = Some df → length col = length (df_rows df) →
  pd.set_payout l col σ = Ok (tt, <[l := mkFrame (df_rows df) (Some col) (df_year df)]> σ).
Proof.
  intros H Hlen. unfold pd.set_payout.
  rewrite (bind_run _ _ _ _ _ (load_run _ _ _ H)).
  rewrite decide_True by done. by eapply write_run.
Qed.

Lemma set_year_run σ l df col :
  σ !! l = Some df → length col = length (df_rows df) →
  pd.set_year l col σ = Ok (tt, <[l := mkFrame (df_rows df) (df_payout df) (Some col)]> σ).
Proof.
  intros H Hlen. unfold pd.set_year.
  rewrite (bind_run _ _ _ _ _ (load_run _ _ _ H)).
  rewrite decide_True by done. by eapply write_run.
Qed.

Lemma groupby_year_payout_run σ l df years payouts :
  σ !! l = Some df → df_year df = Some years → df_payout df = Some payouts →
  pd.groupby_year_payout l σ = Ok (pd.group years payouts, σ).
Proof.
  intros H Hy Hp. unfold pd.groupby_year_payout.
  rewrite (bind_run _ _ _ _ _ (load_run _ _ _ H)). by rewrite Hy, Hp.
Qed.

(** ** The run of [compute_payouts] *)

Section payouts.
Variable parse_datetime : string → option Timestamp.

(** The timestamp of a row once its [time] cell went through
    [to_datetime]; [None] when the row is dropped. *)
Definition event_time (r : Row) : option Timestamp :=
  match pd.to_datetime_cell parse_datetime (row_time r) with
  | Datetime t => Some t
  | _ => None
  end.

Definition retained (r : Row) : Prop := is_Some (event_time r).

(** The rows of the working copy. *)
Definition working_rows (rows : list Row) : list Row :=
  omap (λ r, (λ t, set_row_time r (Datetime t)) <$> event_time r) rows.

(** The frame after lines 85-89. *)
Definition converted (df : DataFrame) : DataFrame :=
  if pd.is_datetime64_any_dtype (map row_time (df_rows df)) then df
  else mkFrame (zip_with set_row_time (df_rows df)
                  (pd.to_datetime parse_datetime (map row_time (df_rows df))))
               (df_payout df) (df_year df).

Definition row_year (r : Row) : Z :=
  default 0 (pd.dt_year_cell (row_time r)).

(** The frame after line 103. *)
Definition working (payout_rules : list PayoutRule) (df : DataFrame) : DataFrame :=
  let rows := working_rows (df_rows df) in
  mkFrame rows (Some (map (compute_payout payout_rules) rows)) (Some (map row_year rows)).

Definition yearly (payout_rules : list PayoutRule) (df : DataFrame) : gmap Z Q :=
  let rows := working_rows (df_rows df) in
  pd.groupby_max (pd.group (map row_year rows) (map (compute_payout payout_rules) rows)).

Lemma dropna_converted (df : DataFrame) :
  filter_mask (map (λ r, notna (row_time r)) (df_rows (converted df)))
              (df_rows (converted df)) = working_rows (df_rows df).
Proof.
  unfold converted, working_rows, pd.is_datetime64_any_dtype, pd.to_datetime.
  destruct (forallb is_datetime_cell (map row_time (df_rows df))) eqn:E; simpl.
  - induction (df_rows df) as [|r rows IH]; simpl in *; [done|].
    apply andb_prop in E as [Er E]. rewrite (IH E). unfold event_time.
    destruct r as [[t| |s|] ? ? ? ?]; simpl in *; try done.
  - clear E. induction (df_rows df) as [|r rows IH]; simpl; [done|].
    rewrite IH. unfold event_time.
    destruct r as [[t| |s|] ? ? ? ?]; simpl; try done.
    by destruct (parse_datetime s).
Qed.

Lemma working_rows_datetime (rows : list Row) :
  Forall (λ r, ∃ t, row_time r = Datetime t) (working_rows rows).
Proof.
  unfold working_rows. induction rows as [|r rows IH]; csimpl; [constructor|].
  destruct (event_time r) as [t|]; csimpl; [|exact IH].
  constructor; [by exists t | exact IH].
Qed.

Lemma dt_year_datetime (rows : list Row) :
  Forall (λ r, ∃ t, row_time r = Datetime t) rows →
  mapM pd.dt_year_cell (map row_time rows) = Some (map row_year rows).
Proof.
  induction 1 as [|r rows [t Ht] _ IH]; [done|].
  cbn [map]. unfold row_year at 1. rewrite Ht. cbn. rewrite IH. done.
Qed.

Lemma converted_run (σ : gmap loc DataFrame) (l : loc) (df : DataFrame) :
  σ !! l = Some df →
  let time := map row_time (df_rows df) in
  (if negb (pd.is_datetime64_any_dtype time)
   then pd.set_time l (pd.to_datetime parse_datetime time)
   else mret tt) σ = Ok (tt, <[l := converted df]> σ).
Proof.
  intros H time. unfold converted. fold time.
  destruct (pd.is_datetime64_any_dtype time); simpl.
  - unfold mret, St_ret. by rewrite insert_id.
  - apply set_time_run; [done|].
    unfold pd.to_datetime, time. by rewrite !length_map.
Qed.

Lemma compute_payouts_run (σ : gmap loc DataFrame) (l : loc) (df : DataFrame)
    (payout_rules : list PayoutRule) :
  σ !! l = Some df →
  let l1 := fresh (dom σ) in
  let σ1 := <[l1 := converted df]> σ in
  let l2 := fresh (dom σ1) in
  compute_payouts parse_datetime l payout_rules σ
  = Ok (yearly payout_rules df, <[l2 := working payout_rules df]> σ1).
Proof.
  intros Hl l1 σ1 l2. unfold compute_payouts.
  run_step (copy_run _ _ _ Hl). fold l1.
  assert (<[l1 := df]> σ !! l1 = Some df) as H1 by apply lookup_insert_eq.
  run_step (get_time_run _ _ _ H1).
  run_step (converted_run _ _ _ H1).
  rewrite insert_insert_eq. fold σ1.
  assert (σ1 !! l1 = Some (converted df)) as H1' by apply lookup_insert_eq.
  run_step (dropna_time_run _ _ _ H1'). fold l2.
  rewrite dropna_converted.
  set (rows := working_rows (df_rows df)).
  match goal with |- context [<[l2 := ?f]> σ1] => set (f0 := f) end.
  assert (<[l2 := f0]> σ1 !! l2 = Some f0) as H2 by apply lookup_insert_eq.
  run_step (apply_rows_run _ _ _ _ H2).
  run_step (set_payout_run _ _ _ _ H2 (length_map _ _)).
  rewrite insert_insert_eq.
  match goal with |- context [<[l2 := ?f]> σ1] => set (f1 := f) end.
  assert (<[l2 := f1]> σ1 !! l2 = Some f1) as H3 by apply lookup_insert_eq.
  run_step (get_time_run _ _ _ H3).
  unfold pd.dt_year. simpl df_rows.
  rewrite (dt_year_datetime rows (working_rows_datetime _)). simpl of_option.
  rewrite (bind_run (mret (map row_year rows)) _ _ _ _ eq_refl).
  run_step (set_year_run _ _ _ _ H3 (length_map _ _)).
  rewrite insert_insert_eq.
  match goal with |- context [<[l2 := ?f]> σ1] => set (f2 := f) end.
  assert (<[l2 := f2]> σ1 !! l2 = Some f2) as H4 by apply lookup_insert_eq.
  run_step (groupby_year_payout_run _ _ _ _ _ H4 eq_refl eq_refl).
  reflexivity.
Qed.

(** ** The payout of one event *)

(** An event satisfies a rule: distance within the radius and magnitude at
    least the threshold. *)
Definition rule_applies (r : Row) (rule : PayoutRule) : Prop :=
  (row_depth r <= radius rule)%Q ∧ (row_mag r >= magnitude rule)%Q.

(** [p] is the greatest payout among the rules the event satisfies, or 0
    when it satisfies none. *)
Definition payout_spec (payout_rules : list PayoutRule) (r : Row) (p : Q) : Prop :=
  (∃ rule, rule ∈ payout_rules ∧ rule_applies r rule ∧ p = payout rule ∧
           ∀ rule', rule' ∈ payout_rules → rule_applies r rule' → (payout rule' <= p)%Q)
  ∨ ((∀ rule, rule ∈ payout_rules → ¬ rule_applies r rule) ∧ p = 0%Q).

Lemma qualifies_iff (r : Row) (rule : PayoutRule) :
  qualifies r rule ↔ rule_applies r rule.
Proof.
  unfold qualifies, rule_applies. rewrite andb_True.
  unfold Is_true.
  split; intros [H1 H2]; split.
  - apply Qle_bool_iff. by destruct (Qle_bool (row_depth r) (radius rule)).
  - apply Qle_bool_iff. by destruct (Qle_bool (magnitude rule) (row_mag r)).
  - apply Qle_bool_iff in H1. by rewrite H1.
  - apply Qle_bool_iff in H2. by rewrite H2.
Qed.

Lemma compute_payout_spec (payout_rules : list PayoutRule) (r : Row) :
  payout_spec payout_rules r (compute_payout payout_rules r).
Proof.
  unfold compute_payout.
  destruct (filter (qualifies r) payout_rules) as [|q qs] eqn:E.
  - right. split; [|done]. intros rule Hin Happ.
    assert (rule ∈ filter (qualifies r) payout_rules) as Hf.
    { apply list_elem_of_filter. split; [by apply qualifies_iff | done]. }
    rewrite E in Hf. by apply not_elem_of_nil in Hf.
  - left. rewrite <- E.
    assert (map payout (filter (qualifies r) payout_rules) ≠ []) as Hne by by rewrite E.
    destruct (py_max_is_Some _ Hne) as [v Hv].
    destruct (py_max_spec _ _ Hv) as [Hin Hle].
    assert (match map payout (filter (qualifies r) payout_rules) with
            | [] => 0%Q
            | _ :: _ => default 0%Q (Py.max (map payout (filter (qualifies r) payout_rules)))
            end = v) as ->.
    { rewrite Hv. simpl. by destruct (map payout (filter (qualifies r) payout_rules)). }
    apply list_elem_of_fmap in Hin as (rule & -> & Hrule).
    apply list_elem_of_filter in Hrule as [Hq Hrule].
    exists rule. split; [done|]. split; [by apply qualifies_iff|]. split; [done|].
    intros rule' Hin' Happ'. apply Hle.
    apply list_elem_of_fmap. exists rule'. split; [done|].
    apply list_elem_of_filter. split; [by apply qualifies_iff | done].
Qed.

(** The payout of an event never goes down when rules with non-negative
    payouts are added. *)
Lemma compute_payout_mono (R1 R2 : list PayoutRule) (r : Row) :
  R1 ⊆ R2 →
  (∀ rule, rule ∈ R2 → rule ∉ R1 → (0 <= payout rule)%Q) →
  (compute_payout R1 r <= compute_payout R2 r)%Q.
Proof.
  intros Hsub Hadd.
  destruct (compute_payout_spec R1 r) as [(rule1 & Hin1 & Happ1 & -> & _) | [Hnone1 ->]];
    destruct (compute_payout_spec R2 r) as [(rule2 & Hin2 & Happ2 & -> & Hmax2) | [Hnone2 ->]].
  - apply Hmax2; [by apply Hsub | done].
  - exfalso. by apply (Hnone2 rule1); [apply Hsub|].
  - apply Hadd; [done|]. intros Hin. by apply (Hnone1 rule2).
  - apply Qle_refl.
Qed.

(** ** Events and years *)

(** The calendar year of a retained event. *)
Definition event_year (r : Row) : option Z := ts_year <$> event_time r.

(** The retained events of a year, in input order, and their payouts. *)
Definition events_of_year (rows : list Row) (y : Z) : list Row :=
  filter (λ r, event_year r = Some y) rows.

Definition payouts_of_year (payout_rules : list PayoutRule) (rows : list Row) (y : Z)
  : list Q :=
  map (compute_payout payout_rules) (events_of_year rows y).

Lemma working_payouts (payout_rules : list PayoutRule) (rows : list Row) :
  map (compute_payout payout_rules) (working_rows rows)
  = map (compute_payout payout_rules) (filter retained rows).
Proof.
  unfold working_rows, retained.
  induction rows as [|r rows IH]; [done|].
  rewrite filter_cons. csimpl. destruct (event_time r) as [t|] eqn:E; csimpl.
  - by rewrite IH.
  - exact IH.
Qed.

Lemma select_working (payout_rules : list PayoutRule) (rows : list Row) (y : Z) :
  select y (map row_year (working_rows rows))
           (map (compute_payout payout_rules) (working_rows rows))
  = payouts_of_year payout_rules rows y.
Proof.
  unfold select, payouts_of_year, events_of_year, working_rows, event_year.
  induction rows as [|r rows IH]; [done|].
  rewrite (filter_cons _ r). csimpl. destruct (event_time r) as [t|] eqn:E; csimpl.
  - rewrite filter_cons.
    change ((row_year (set_row_time r (Datetime t)),
             compute_payout payout_rules (set_row_time r (Datetime t))).1)
      with (ts_year t).
    repeat case_decide; try congruence; csimpl; try f_equal; exact IH.
  - exact IH.
Qed.

Lemma lookup_yearly (payout_rules : list PayoutRule) (df : DataFrame) (y : Z) :
  yearly payout_rules df !! y
  = pd.series_max (payouts_of_year payout_rules (df_rows df) y).
Proof. unfold yearly. by rewrite lookup_groupby_max, select_working. Qed.

(** ** Claims on [compute_payouts] *)

(** C1.  The call attaches a payout column to its working copy, a frame
    it allocates whose rows are the retained events; the column pairs every
    retained event, in input order, with the greatest payout among the rules
    whose radius is at least the event's distance and whose magnitude is at
    most the event's magnitude (both conditions), and with 0 when no rule
    satisfies both, in particular for the empty rule set. *)
Theorem compute_payouts_event_payout (σ : gmap loc DataFrame) (l : loc) (df : DataFrame)
    (payout_rules : list PayoutRule) :
  σ !! l = Some df →
  ∃ res σ' lw w payouts,
    compute_payouts parse_datetime l payout_rules σ = Ok (res, σ') ∧
    σ !! lw = None ∧
    σ' !! lw = Some w ∧
    df_rows w = working_rows (df_rows df) ∧
    df_payout w = Some payouts ∧
    Forall2 (payout_spec payout_rules) (filter retained (df_rows df)) payouts.
Proof.
  intros Hl.
  eexists _, _, _, (working payout_rules df), _.
  split; [by apply compute_payouts_run|].
  split; [apply fresh_lookup_insert|].
  split; [apply lookup_insert_eq|].
  split; [reflexivity|].
  split; [reflexivity|].
  rewrite working_payouts. apply Forall2_fmap_r, Forall_Forall2_diag, Forall_forall.
  intros r _. apply compute_payout_spec.
Qed.

(** C2.  The returned mapping has a key for exactly the years of the
    retained events, and the value of a year is the maximum of the payouts
    of that year's retained events: one of these payouts, not exceeded by
    any of them (so not their sum). *)
Theorem compute_payouts_yearly_max (σ : gmap loc DataFrame) (l : loc) (df : DataFrame)
    (payout_rules : list PayoutRule) :
  σ !! l = Some df →
  ∃ res σ',
    compute_payouts parse_datetime l payout_rules σ = Ok (res, σ') ∧
    ∀ y, match res !! y with
         | Some v => is_max_of v (payouts_of_year payout_rules (df_rows df) y)
         | None => events_of_year (df_rows df) y = []
         end.
Proof.
  intros Hl. eexists _, _. split; [by apply compute_payouts_run|].
  intros y. rewrite lookup_yearly.
  destruct (pd.series_max _) as [v|] eqn:E.
  - by apply series_max_spec.
  - apply series_max_None in E. unfold payouts_of_year in E.
    by apply fmap_nil_inv in E.
Qed.

Lemma retained_event_year (r : Row) : retained r ↔ is_Some (event_year r).
Proof. unfold retained, event_year. by rewrite fmap_is_Some. Qed.

Lemma events_of_year_filter_retained (rows : list Row) (y : Z) :
  events_of_year (filter retained rows) y = events_of_year rows y.
Proof.
  unfold events_of_year. induction rows as [|r rows IH]; [done|].
  rewrite !(filter_cons _ r). destruct (decide (retained r)) as [Hr|Hr].
  - rewrite filter_cons. case_decide; by rewrite IH.
  - rewrite decide_False; [exact IH|].
    intros Hy. apply Hr, retained_event_year. by rewrite Hy.
Qed.

Lemma yearly_rows (payout_rules : list PayoutRule) (df df' : DataFrame) :
  (∀ y, events_of_year (df_rows df') y = events_of_year (df_rows df) y) →
  yearly payout_rules df' = yearly payout_rules df.
Proof.
  intros H. apply map_eq. intros y. rewrite !lookup_yearly.
  unfold payouts_of_year. by rewrite H.
Qed.

(** *** Rows with a usable timestamp, read off the input

    The definitions below look at the caller's rows only: a timestamp cell
    is usable when it holds a timestamp, or a string that the column's
    parser reads.  [None], [NaT] and the strings the parser refuses are the
    bad cells.  None of these definitions goes through [pd.to_datetime]. *)
Definition timestamp_of (c : TimeCell) : option Timestamp :=
  match c with
  | Datetime t => Some t
  | Text s => parse_datetime s
  | NaT => None
  | Missing => None
  end.

Definition bad_timestamp (r : Row) : Prop := timestamp_of (row_time r) = None.

Definition in_year (y : Z) (r : Row) : Prop :=
  ∃ t, timestamp_of (row_time r) = Some t ∧ ts_year t = y.

Definition in_yearb (y : Z) (r : Row) : bool :=
  match timestamp_of (row_time r) with
  | Some t => bool_decide (ts_year t = y)
  | None => false
  end.

(** The rows of year [y] whose timestamp is usable, in input order. *)
Definition good_rows_of_year (rows : list Row) (y : Z) : list Row :=
  List.filter (in_yearb y) rows.

Lemma event_time_timestamp_of (r : Row) :
  event_time r = timestamp_of (row_time r).
Proof.
  unfold event_time, timestamp_of.
  destruct (row_time r) as [t| |s|]; simpl; try reflexivity.
  by destruct (parse_datetime s).
Qed.

Lemma in_yearb_spec (y : Z) (r : Row) : in_yearb y r = true ↔ in_year y r.
Proof.
  unfold in_yearb, in_year. destruct (timestamp_of (row_time r)) as [t|].
  - rewrite bool_decide_eq_true. split.
    + intros <-. by exists t.
    + by intros (t' & [= <-] & Hy).
  - split; [discriminate|]. by intros (t & [=] & _).
Qed.

Lemma in_yearb_event_year (y : Z) (r : Row) :
  in_yearb y r = bool_decide (event_year r = Some y).
Proof.
  unfold in_yearb, event_year. rewrite event_time_timestamp_of.
  destruct (timestamp_of (row_time r)) as [t|]; simpl.
  - apply bool_decide_ext. split; [by intros -> | by intros [= ->]].
  - reflexivity.
Qed.

Lemma events_of_year_good (rows : list Row) (y : Z) :
  events_of_year rows y = good_rows_of_year rows y.
Proof.
  unfold events_of_year, good_rows_of_year.
  induction rows as [|r rows IH]; [done|].
  rewrite filter_cons. cbn [List.filter]. rewrite in_yearb_event_year, IH.
  by destruct (decide (event_year r = Some y)) as [H|H];
    [rewrite bool_decide_eq_true_2 | rewrite bool_decide_eq_false_2].
Qed.

(** A row with a bad timestamp is among the rows of no year. *)
Lemma bad_timestamp_not_good (rows : list Row) (y : Z) (r : Row) :
  bad_timestamp r → r ∉ good_rows_of_year rows y.
Proof.
  unfold bad_timestamp, good_rows_of_year. intros Hbad Hin.
  apply list_elem_of_In, filter_In in Hin as [_ Hy].
  unfold in_yearb in Hy. by rewrite Hbad in Hy.
Qed.

(** C8.  A row whose timestamp is missing ([None] or [NaT]) or is a string
    that the parser refuses raises nothing and has no part in the result.
    The call returns a mapping; a year is a key exactly when some input row
    has a usable timestamp of that year; the value of a key is the greatest
    payout among the input rows with a usable timestamp of that year: the
    remaining events are processed, the bad rows are not among them. *)
Theorem compute_payouts_drops_bad_timestamps (σ : gmap loc DataFrame) (l : loc)
    (df : DataFrame) (payout_rules : list PayoutRule) :
  σ !! l = Some df →
  ∃ res σ',
    compute_payouts parse_datetime l payout_rules σ = Ok (res, σ') ∧
    (∀ y, is_Some (res !! y) ↔ ∃ r, r ∈ df_rows df ∧ in_year y r) ∧
    (∀ y v, res !! y = Some v →
            is_max_of v (map (compute_payout payout_rules)
                             (good_rows_of_year (df_rows df) y))).
Proof.
  intros Hl. eexists _, _. split; [by apply compute_payouts_run|].
  split.
  - intros y. rewrite lookup_yearly. unfold payouts_of_year.
    rewrite events_of_year_good. unfold good_rows_of_year. split.
    + intros [v Hv]. apply series_max_spec in Hv as [Hin _].
      apply list_elem_of_fmap in Hin as (r & _ & Hr).
      apply list_elem_of_In, filter_In in Hr as [Hr Hy].
      exists r. split; [by apply list_elem_of_In | by apply in_yearb_spec].
    + intros (r & Hr & Hy).
      destruct (pd.series_max _) as [v|] eqn:E; [eauto|].
      apply series_max_None, fmap_nil_inv in E.
      assert (In r (List.filter (in_yearb y) (df_rows df))) as Hf.
      { apply filter_In. split; [by apply list_elem_of_In | by apply in_yearb_spec]. }
      rewrite E in Hf. destruct Hf.
  - intros y v Hv. rewrite lookup_yearly in Hv. unfold payouts_of_year in Hv.
    rewrite events_of_year_good in Hv. by apply series_max_spec.
Qed.

(** C9.  The call leaves the caller's frame, and every frame that existed
    before it, as it was; the payout and year columns are attached to a
    frame allocated by the call. *)
Theorem compute_payouts_frame (σ : gmap loc DataFrame) (l : loc) (df : DataFrame)
    (payout_rules : list PayoutRule) :
  σ !! l = Some df →
  ∃ res σ',
    compute_payouts parse_datetime l payout_rules σ = Ok (res, σ') ∧
    σ' !! l = Some df ∧
    (∀ l', is_Some (σ !! l') → σ' !! l' = σ !! l') ∧
    ∃ lw w, σ !! lw = None ∧ σ' !! lw = Some w ∧
            is_Some (df_payout w) ∧ is_Some (df_year w).
Proof.
  intros Hl. eexists _, _. split; [by apply compute_payouts_run|].
  destruct (fresh_lookup_insert σ (converted df)) as [H2 Hne].
  pose proof (fresh_lookup σ) as H1.
  set (l1 := fresh (dom σ)) in *.
  set (l2 := fresh (dom (<[l1 := converted df]> σ))) in *.
  assert (∀ l', is_Some (σ !! l') →
                <[l2 := working payout_rules df]> (<[l1 := converted df]> σ) !! l' = σ !! l')
    as Hframe.
  { intros l' [f Hf]. rewrite !lookup_insert_ne; [done| |]; intros <-; congruence. }
  split; [rewrite Hframe by eauto; done|].
  split; [exact Hframe|].
  exists l2, (working payout_rules df).
  split; [exact H2|].
  split; [apply lookup_insert_eq|]. by split.
Qed.

(** C10, amended.  With rule sets [R1 ⊆ R2] such that every rule of [R2]
    that is not in [R1] has a non-negative payout, the two results have the
    same years and no year's value is smaller under [R2]. *)
Theorem compute_payouts_monotone (σ : gmap loc DataFrame) (l : loc) (df : DataFrame)
    (R1 R2 : list PayoutRule) :
  σ !! l = Some df →
  R1 ⊆ R2 →
  (∀ rule, rule ∈ R2 → rule ∉ R1 → (0 <= payout rule)%Q) →
  ∃ res1 σ1 res2 σ2,
    compute_payouts parse_datetime l R1 σ = Ok (res1, σ1) ∧
    compute_payouts parse_datetime l R2 σ = Ok (res2, σ2) ∧
    dom res1 = dom res2 ∧
    ∀ y v1, res1 !! y = Some v1 → ∃ v2, res2 !! y = Some v2 ∧ (v1 <= v2)%Q.
Proof.
  intros Hl Hsub Hadd. eexists _, _, _, _.
  split; [by apply compute_payouts_run|].
  split; [by apply compute_payouts_run|].
  assert (∀ y, is_Some (yearly R1 df !! y) ↔ is_Some (yearly R2 df !! y)) as Hdom.
  { intros y. rewrite !lookup_yearly. unfold payouts_of_year.
    by destruct (events_of_year (df_rows df) y). }
  split.
  { apply set_eq. intros y. rewrite !elem_of_dom. apply Hdom. }
  intros y v1 Hv1.
  destruct (proj1 (Hdom y) (mk_is_Some _ _ Hv1)) as [v2 Hv2].
  exists v2. split; [done|].
  rewrite lookup_yearly in Hv1, Hv2.
  apply series_max_spec in Hv1 as [Hin1 _].
  apply series_max_spec in Hv2 as [_ Hle2].
  apply list_elem_of_fmap in Hin1 as (r & -> & Hr).
  eapply Qle_trans; [by apply compute_payout_mono|].
  apply Hle2. apply list_elem_of_fmap. eauto.
Qed.

End payouts.

(** ** Concrete batches *)

(** A parser for the concrete batches: dates written [YYYY-MM-DD]. *)
Definition digit (a : ascii) : option Z :=
  let n := Z.of_nat (nat_of_ascii a) - 48 in
  if decide (0 ≤ n ≤ 9) then Some n else None.

Definition parse_iso_date (s : string) : option Timestamp :=
  match String.list_ascii_of_string s with
  | [y1; y2; y3; y4; "-"%char; m1; m2; "-"%char; d1; d2] =>
      y1 ← digit y1; y2 ← digit y2; y3 ← digit y3; y4 ← digit y4;
      m1 ← digit m1; m2 ← digit m2; d1 ← digit d1; d2 ← digit d2;
      Some (mkTimestamp (1000 * y1 + 100 * y2 + 10 * y3 + y4) (10 * m1 + m2) (10 * d1 + d2) 0)
  | _ => None
  end.

(** The rules and the two same-year events of the specification's example,
    followed by a row whose timestamp does not parse. *)
Definition example_rules : list PayoutRule :=
  [mkRule 50 5.0 10.0; mkRule 100 6.0 25.0]%Q.

Definition example_frame : DataFrame :=
  mkFrame [mkRow (Text "2020-02-11") 5.5 30 35.1 139.2;
           mkRow (Text "2020-09-30") 6.5 80 35.4 139.9;
           mkRow (Text "not a date") 7.0 10 35.0 139.0]%Q None None.

Definition example_store : gmap loc DataFrame := {[1%positive := example_frame]}.

Example example_two_events_same_year :
  match compute_payouts parse_iso_date 1%positive example_rules example_store with
  | Ok (res, σ') =>
      res !! 2020 = Some 25.0%Q ∧ dom res = {[2020]} ∧
      σ' !! 1%positive = Some example_frame
  | Raise _ => False
  end.
Proof.
  rewrite (compute_payouts_run parse_iso_date example_store 1%positive example_frame)
    by reflexivity.
  split; [by vm_compute|]. split.
  - apply set_eq. intros y. rewrite elem_of_dom, lookup_yearly, elem_of_singleton.
    destruct (decide (y = 2020)) as [->|Hy].
    { split; [done|]. intros _. eexists. vm_compute. reflexivity. }
    split; [|done]. intros [v Hv]. exfalso.
    apply series_max_spec in Hv as [Hin _].
    apply list_elem_of_fmap in Hin as (r & _ & Hr).
    apply list_elem_of_filter in Hr as [Hyr Hr].
    repeat (apply elem_of_cons in Hr as [-> | Hr]; [vm_compute in Hyr; congruence|]).
    by apply not_elem_of_nil in Hr.
  - rewrite lookup_insert_ne, lookup_insert_ne; [done| |]; by vm_compute.
Qed.

Lemma compute_payouts_event_payout_witness :
  example_store !! 1%positive = Some example_frame ∧
  ∃ res σ' lw w payouts,
    compute_payouts parse_iso_date 1%positive example_rules example_store = Ok (res, σ') ∧
    example_store !! lw = None ∧
    σ' !! lw = Some w ∧
    df_rows w = working_rows parse_iso_date (df_rows example_frame) ∧
    df_payout w = Some payouts ∧
    Forall2 (payout_spec example_rules)
            (filter (retained parse_iso_date) (df_rows example_frame)) payouts.
Proof.
  split; [reflexivity|].
  apply (compute_payouts_event_payout parse_iso_date example_store 1%positive example_frame).
  reflexivity.
Defined.

Lemma compute_payouts_yearly_max_witness :
  example_store !! 1%positive = Some example_frame ∧
  ∃ res σ',
    compute_payouts parse_iso_date 1%positive example_rules example_store = Ok (res, σ') ∧
    ∀ y, match res !! y with
         | Some v => is_max_of v (payouts_of_year parse_iso_date example_rules
                                    (df_rows example_frame) y)
         | None => events_of_year parse_iso_date (df_rows example_frame) y = []
         end.
Proof.
  split; [reflexivity|].
  apply (compute_payouts_yearly_max parse_iso_date example_store 1%positive example_frame).
  reflexivity.
Defined.

Lemma compute_payouts_drops_bad_timestamps_witness :
  example_store !! 1%positive = Some example_frame ∧
  ∃ res σ',
    compute_payouts parse_iso_date 1%positive example_rules example_store = Ok (res, σ') ∧
    (∀ y, is_Some (res !! y) ↔
          ∃ r, r ∈ df_rows example_frame ∧ in_year parse_iso_date y r) ∧
    (∀ y v, res !! y = Some v →
            is_max_of v (map (compute_payout example_rules)
                             (good_rows_of_year parse_iso_date (df_rows example_frame) y))).
Proof.
  split; [reflexivity|].
  apply (compute_payouts_drops_bad_timestamps parse_iso_date example_store 1%positive
           example_frame).
  reflexivity.
Defined.

Lemma compute_payouts_frame_witness :
  example_store !! 1%positive = Some example_frame ∧
  ∃ res σ',
    compute_payouts parse_iso_date 1%positive example_rules example_store = Ok (res, σ') ∧
    σ' !! 1%positive = Some example_frame ∧
    (∀ l', is_Some (example_store !! l') → σ' !! l' = example_store !! l') ∧
    ∃ lw w, example_store !! lw = None ∧ σ' !! lw = Some w ∧
            is_Some (df_payout w) ∧ is_Some (df_year w).
Proof.
  split; [reflexivity|].
  apply (compute_payouts_frame parse_iso_date example_store 1%positive example_frame).
  reflexivity.
Defined.

(** One event, and a rule with a negative payout that it satisfies. *)
Definition rebate_rule : PayoutRule := mkRule 100 5.0 (-5.0)%Q.

Definition one_event_frame : DataFrame :=
  mkFrame [mkRow (Text "2020-02-11") 6.0 10 35.1 139.2]%Q None None.

Definition one_event_store : gmap loc DataFrame := {[1%positive := one_event_frame]}.

(** C10 as stated fails: adding a rule with a negative payout lowers the
    value of year 2020 from 0 to -5. *)
Lemma compute_payouts_monotone_counterexample :
  one_event_store !! 1%positive = Some one_event_frame ∧
  [] ⊆ [rebate_rule] ∧
  ∃ res1 σ1 res2 σ2,
    compute_payouts parse_iso_date 1%positive [] one_event_store = Ok (res1, σ1) ∧
    compute_payouts parse_iso_date 1%positive [rebate_rule] one_event_store = Ok (res2, σ2) ∧
    res1 !! 2020 = Some 0%Q ∧
    res2 !! 2020 = Some (-5.0)%Q ∧
    ¬ (∀ y v1, res1 !! y = Some v1 → ∃ v2, res2 !! y = Some v2 ∧ (v1 <= v2)%Q).
Proof.
  split; [reflexivity|]. split; [apply list_subseteq_nil|].
  eexists _, _, _, _.
  split; [by apply compute_payouts_run|].
  split; [by apply compute_payouts_run|].
  split; [by vm_compute|]. split; [by vm_compute|].
  intros H. destruct (H 2020 0%Q) as (v2 & Hv2 & Hle); [by vm_compute|].
  vm_compute in Hv2. injection Hv2 as <-. by vm_compute in Hle.
Qed.

Lemma compute_payouts_monotone_witness :
  example_store !! 1%positive = Some example_frame ∧
  [mkRule 50 5.0 10.0]%Q ⊆ example_rules ∧
  (∀ rule, rule ∈ example_rules → rule ∉ [mkRule 50 5.0 10.0]%Q → (0 <= payout rule)%Q) ∧
  ∃ res1 σ1 res2 σ2,
    compute_payouts parse_iso_date 1%positive [mkRule 50 5.0 10.0]%Q example_store
      = Ok (res1, σ1) ∧
    compute_payouts parse_iso_date 1%positive example_rules example_store = Ok (res2, σ2) ∧
    dom res1 = dom res2 ∧
    ∀ y v1, res1 !! y = Some v1 → ∃ v2, res2 !! y = Some v2 ∧ (v1 <= v2)%Q.
Proof.
  assert ([mkRule 50 5.0 10.0]%Q ⊆ example_rules) as Hsub.
  { intros rule Hin. apply list_elem_of_singleton in Hin as ->. left. }
  assert (∀ rule, rule ∈ example_rules → rule ∉ [mkRule 50 5.0 10.0]%Q →
                  (0 <= payout rule)%Q) as Hadd.
  { intros rule Hin _. unfold example_rules in Hin.
    repeat (apply elem_of_cons in Hin as [-> | Hin]; [by vm_compute|]).
    by apply not_elem_of_nil in Hin. }
  split; [reflexivity|]. split; [exact Hsub|]. split; [exact Hadd|].
  apply (compute_payouts_monotone parse_iso_date example_store 1%positive example_frame);
    [reflexivity | exact Hsub | exact Hadd].
Defined.

(** * The burning cost *)

(** ** [compute_burning_cost] *)

Definition compute_burning_cost (payouts : gmap Z Q) (start_year end_year : Z)
  : result Q :=
  if start_year >? end_year then Raise ValueError
  else
    let total_years := end_year - start_year + 1 in
    if total_years =? 0 then Ok 0%Q
    else
      let total_pct :=
        Py.sum (map (λ year, default 0%Q (payouts !! year))
                    (Py.range start_year (end_year + 1))) in
      Ok (total_pct / inject_Z total_years)%Q.

(** ** The mean over a window of years *)

(** The payout of a year, 0 for a year the mapping does not have. *)
Definition payout_of (payouts : gmap Z Q) (year : Z) : Q :=
  match payouts !! year with
  | Some p => p
  | None => 0%Q
  end.

(** [payout_of start + payout_of (start + 1) + ...], over [n] years. *)
Fixpoint sum_years (payouts : gmap Z Q) (start : Z) (n : nat) : Q :=
  match n with
  | O => 0%Q
  | S n' => (payout_of payouts start + sum_years payouts (start + 1) n')%Q
  end.

Lemma fold_left_Qplus (l : list Q) (a : Q) :
  (fold_left Qplus l a == a + fold_left Qplus l 0)%Q.
Proof.
  revert a. induction l as [|x l IH]; intros a; simpl.
  - by rewrite Qplus_0_r.
  - rewrite (IH (a + x)%Q), (IH (0 + x)%Q). rewrite Qplus_0_l. by rewrite Qplus_assoc.
Qed.

Lemma py_sum_range (payouts : gmap Z Q) (start : Z) (n : nat) :
  (Py.sum (map (λ year, default 0%Q (payouts !! year)) (seqZ start (Z.of_nat n)))
   == sum_years payouts start n)%Q.
Proof.
  unfold Py.sum. revert start. induction n as [|n IH]; intros start.
  - done.
  - rewrite seqZ_cons by lia. cbn [map fold_left sum_years].
    replace (Z.pred (Z.of_nat (S n))) with (Z.of_nat n) by lia.
    rewrite fold_left_Qplus. change (inject_Z 0) with 0%Q. rewrite Qplus_0_l.
    replace (Z.succ start) with (start + 1) by lia.
    change (fold_left Qplus ?l 0%Q) with (fold_left Qplus l (inject_Z 0)).
    rewrite IH. unfold payout_of. by destruct (payouts !! start).
Qed.

(** C3.  For [start_year <= end_year] the call returns the sum, over the
    years of the inclusive range, of the mapping's value at the year (0 for
    an absent year), divided by [end_year - start_year + 1]. *)
Theorem compute_burning_cost_mean (payouts : gmap Z Q) (start_year end_year : Z) :
  start_year ≤ end_year →
  ∃ cost,
    compute_burning_cost payouts start_year end_year = Ok cost ∧
    (cost == sum_years payouts start_year (Z.to_nat (end_year - start_year + 1))
             / inject_Z (end_year - start_year + 1))%Q.
Proof.
  intros Hle. unfold compute_burning_cost.
  destruct (Z.gtb_spec start_year end_year) as [Hgt|_]; [lia|].
  destruct (Z.eqb_spec (end_year - start_year + 1) 0) as [H0|_]; [lia|].
  eexists. split; [reflexivity|].
  unfold Py.range.
  replace (end_year + 1 - start_year) with (Z.of_nat (Z.to_nat (end_year - start_year + 1)))
    by lia.
  by rewrite py_sum_range.
Qed.

(** C6.  The call raises exactly when [start_year > end_year], with the
    range error [ValueError] and no value; otherwise it returns a value. *)
Theorem compute_burning_cost_raises_iff (payouts : gmap Z Q) (start_year end_year : Z) :
  ((∃ e, compute_burning_cost payouts start_year end_year = Raise e) ↔
   start_year > end_year) ∧
  (compute_burning_cost payouts start_year end_year = Raise ValueError ↔
   start_year > end_year) ∧
  ((∃ cost, compute_burning_cost payouts start_year end_year = Ok cost) ↔
   start_year ≤ end_year).
Proof.
  unfold compute_burning_cost.
  destruct (Z.gtb_spec start_year end_year) as [Hgt|Hle].
  - split; [|split]; split; try lia; eauto.
    intros [cost H]. discriminate.
  - destruct (Z.eqb_spec (end_year - start_year + 1) 0) as [H0|_]; [lia|].
    split; [|split]; split; try lia; eauto; try discriminate.
    intros [e H]. discriminate.
Qed.

(** The evaluations of the specification. *)
Definition example_payouts : gmap Z Q := {[2020 := 10.0%Q; 2022 := 30.0%Q]}.

Example burning_cost_2020_2022 :
  ∃ cost, compute_burning_cost example_payouts 2020 2022 = Ok cost ∧
          (cost == (10.0 + 0.0 + 30.0) / 3)%Q.
Proof. eexists. split; [by vm_compute | by vm_compute]. Qed.

Example burning_cost_empty :
  ∃ cost, compute_burning_cost ∅ 2000 2000 = Ok cost ∧ (cost == 0.0)%Q.
Proof. eexists. split; [by vm_compute | by vm_compute]. Qed.

Example burning_cost_reversed (payouts : gmap Z Q) :
  compute_burning_cost payouts 2021 2020 = Raise ValueError.
Proof. reflexivity. Qed.

Lemma compute_burning_cost_mean_witness :
  2020 ≤ 2022 ∧
  ∃ cost,
    compute_burning_cost example_payouts 2020 2022 = Ok cost ∧
    (cost == sum_years example_payouts 2020 (Z.to_nat (2022 - 2020 + 1))
             / inject_Z (2022 - 2020 + 1))%Q.
Proof.
  split; [lia|].
  apply (compute_burning_cost_mean example_payouts 2020 2022). lia.
Defined.

(** * The haversine distance *)

Global Instance result_ret : MRet result := λ A a, Ok a.
Global Instance result_mbind : MBind result := λ A B k m, result_bind m k.

(** An item of a coordinate sequence, in the model over the real numbers:
    a number or a string.  The items that real numbers cannot render
    ([None], NaN, the infinities) belong to the binary64 model at the end
    of the development. *)
Inductive Cell : Type :=
| Num (x : R)
| Str (s : string).

(** ** numpy operations used by [get_haversine_distance] *)

Module np.
Local Open Scope R_scope.

Section asarray.
(** Python's conversion of a string to a float, which is not part of the
    repository. *)
Variable float_of_string : string → option R.

Definition cast_float64 (c : Cell) : result R :=
  match c with
  | Num x => Ok x
  | Str s =>
      match float_of_string s with
      | Some x => Ok x
      | None => Raise ValueError
      end
  end.

(** [np.asarray(seq, dtype=np.float64)] *)
Definition asarray_float64 (seq : list Cell) : result (list R) :=
  result_mapM cast_float64 seq.
End asarray.

(** [np.radians] *)
Definition radians (x : R) : R := x * PI / 180.

(** [np.arctan2(y, x)], the angle of the point [(x, y)]. *)
Definition arctan2 (y x : R) : R :=
  if Rlt_dec 0 x then atan (y / x)
  else if Rlt_dec x 0 then
    if Rle_dec 0 y then atan (y / x) + PI else atan (y / x) - PI
  else if Rlt_dec 0 y then PI / 2
  else if Rlt_dec y 0 then - (PI / 2)
  else 0.

(** A binary operation on two one-dimensional arrays, with broadcasting:
    equal lengths go item by item, an array of length 1 is stretched, other
    shapes raise. *)
Definition broadcast (f : R → R → R) (xs ys : list R) : result (list R) :=
  if decide (length xs = length ys) then Ok (zip_with f xs ys)
  else
    match xs, ys with
    | [x], _ => Ok (map (f x) ys)
    | _, [y] => Ok (map (λ x, f x y) xs)
    | _, _ => Raise ValueError
    end.

End np.

(** ** [get_haversine_distance] *)

Section haversine.
Local Open Scope R_scope.
Variable float_of_string : string → option R.

Definition get_haversine_distance (lat_series lon_series : list Cell)
    (lat_point lon_point : R) : result (list R) :=
  lat_arr ← np.asarray_float64 float_of_string lat_series;
  lon_arr ← np.asarray_float64 float_of_string lon_series;
  let lat1 := map np.radians lat_arr in
  let lon1 := map np.radians lon_arr in
  let lat2 := np.radians lat_point in
  let lon2 := np.radians lon_point in
  let dlat := map (λ x, lat2 - x) lat1 in
  let dlon := map (λ x, lon2 - x) lon1 in
  let sin2_dlat := map (λ x, sin (x / 2) ^ 2) dlat in
  let cos_cos := map (λ x, cos x * cos lat2) lat1 in
  let sin2_dlon := map (λ x, sin (x / 2) ^ 2) dlon in
  cos_cos_sin2 ← np.broadcast Rmult cos_cos sin2_dlon;
  a ← np.broadcast Rplus sin2_dlat cos_cos_sin2;
  let c := map (λ a, 2 * np.arctan2 (sqrt a) (sqrt (1 - a))) a in
  let distances := map (λ c, IZR EARTH_RADIUS * c) c in
  Ok distances.

(** ** The haversine formula *)

(** The distance in km from the point [(lat, lon)] to the reference point,
    all four in degrees. *)
Definition haversine_km (lat_point lon_point lat lon : R) : R :=
  let lat1 := lat * PI / 180 in
  let lon1 := lon * PI / 180 in
  let lat2 := lat_point * PI / 180 in
  let lon2 := lon_point * PI / 180 in
  let a := (sin ((lat2 - lat1) / 2))² + cos lat1 * cos lat2 * (sin ((lon2 - lon1) / 2))² in
  let c := 2 * np.arctan2 (sqrt a) (sqrt (1 - a)) in
  6378 * c.

(** In real arithmetic the quantity under the roots lies between 0 and 1,
    so neither root is taken of a negative number. *)
Lemma cos_cos_half (x y : R) :
  cos x * cos y = (cos ((y + x) / 2))² - (sin ((y - x) / 2))².
Proof.
  set (u := (y - x) / 2). set (v := (y + x) / 2).
  replace x with (v - u) at 1 by (unfold u, v; lra).
  replace y with (v + u) at 1 by (unfold u, v; lra).
  rewrite cos_minus, cos_plus.
  pose proof (sin2_cos2 u) as Hu. pose proof (sin2_cos2 v) as Hv.
  unfold Rsqr in *. nra.
Qed.

Lemma haversine_a_bounds (x y d : R) :
  0 <= (sin ((y - x) / 2))² + cos x * cos y * (sin (d / 2))² <= 1.
Proof.
  rewrite cos_cos_half.
  pose proof (sin2_cos2 ((y - x) / 2)) as Hu.
  pose proof (sin2_cos2 ((y + x) / 2)) as Hv.
  pose proof (sin2_cos2 (d / 2)) as Hd.
  pose proof (Rle_0_sqr (sin ((y - x) / 2))).
  pose proof (Rle_0_sqr (cos ((y - x) / 2))).
  pose proof (Rle_0_sqr (sin ((y + x) / 2))).
  pose proof (Rle_0_sqr (cos ((y + x) / 2))).
  pose proof (Rle_0_sqr (sin (d / 2))).
  pose proof (Rle_0_sqr (cos (d / 2))).
  set (A := (sin ((y - x) / 2))²) in *.
  set (B := (cos ((y + x) / 2))²) in *.
  set (S := (sin (d / 2))²) in *.
  split; nra.
Qed.

Lemma asarray_float64_Num (xs : list R) :
  np.asarray_float64 float_of_string (Num <$> xs) = Ok xs.
Proof.
  unfold np.asarray_float64. induction xs as [|x xs IH]; [done|].
  cbn. rewrite IH. done.
Qed.

Lemma haversine_item (lat_point lon_point lat lon : R) :
  IZR EARTH_RADIUS *
    (2 * np.arctan2
           (sqrt (sin ((np.radians lat_point - np.radians lat) / 2) ^ 2
                  + cos (np.radians lat) * cos (np.radians lat_point)
                    * sin ((np.radians lon_point - np.radians lon) / 2) ^ 2))
           (sqrt (1 - (sin ((np.radians lat_point - np.radians lat) / 2) ^ 2
                       + cos (np.radians lat) * cos (np.radians lat_point)
                         * sin ((np.radians lon_point - np.radians lon) / 2) ^ 2))))
  = haversine_km lat_point lon_point lat lon.
Proof.
  unfold haversine_km, np.radians, EARTH_RADIUS. rewrite !Rsqr_pow2. reflexivity.
Qed.

(** C4.  On two sequences of floats of equal length the call returns a
    sequence of that length whose item [i] is the haversine distance, with
    radius 6378 km, from the [i]-th point to the reference point. *)
Theorem get_haversine_distance_formula (lats lons : list R) (lat_point lon_point : R) :
  length lats = length lons →
  ∃ distances,
    get_haversine_distance (Num <$> lats) (Num <$> lons) lat_point lon_point
      = Ok distances ∧
    length distances = length lats ∧
    ∀ (i : nat) lat lon,
      lats !! i = Some lat → lons !! i = Some lon →
      distances !! i = Some (haversine_km lat_point lon_point lat lon).
Proof.
  intros Hlen. unfold get_haversine_distance.
  rewrite !asarray_float64_Num. cbn [mbind result_mbind result_bind].
  unfold np.broadcast.
  rewrite decide_True by (by rewrite !length_map).
  cbn [mbind result_mbind result_bind].
  rewrite decide_True by (by rewrite length_zip_with, !length_map; lia).
  cbn [mbind result_mbind result_bind].
  eexists. split; [reflexivity|]. split.
  - rewrite !length_map, !length_zip_with, !length_map. lia.
  - intros i lat lon Hlat Hlon.
    rewrite !list_lookup_fmap, !lookup_zip_with, !list_lookup_fmap.
    rewrite Hlat, Hlon. cbn. f_equal. apply haversine_item.
Qed.

(** The two broadcasts of a call amount to one: the formula is applied to
    the pairs that broadcasting the latitudes against the longitudes gives. *)
Lemma get_haversine_distance_broadcast (lat_series lon_series : list Cell)
    (lat_point lon_point : R) :
  get_haversine_distance lat_series lon_series lat_point lon_point
  = (lat_arr ← np.asarray_float64 float_of_string lat_series;
     lon_arr ← np.asarray_float64 float_of_string lon_series;
     np.broadcast (haversine_km lat_point lon_point) lat_arr lon_arr).
Proof.
  unfold get_haversine_distance.
  destruct (np.asarray_float64 float_of_string lat_series) as [lat_arr|e]; [|done].
  destruct (np.asarray_float64 float_of_string lon_series) as [lon_arr|e]; [|done].
  cbn [mbind result_mbind result_bind]. unfold np.broadcast.
  rewrite !length_map.
  destruct (decide (length lat_arr = length lon_arr)) as [Hlen|Hlen].
  - cbn [mbind result_mbind result_bind].
    rewrite decide_True by (rewrite length_zip_with, !length_map; lia).
    cbn [mbind result_mbind result_bind]. f_equal.
    apply list_eq. intros i.
    repeat first [rewrite list_lookup_fmap | rewrite lookup_zip_with].
    destruct (lat_arr !! i) as [lat|]; [|done].
    destruct (lon_arr !! i) as [lon|]; [|done].
    cbn. f_equal. apply haversine_item.
  - destruct lat_arr as [|lat [|lat' lat_arr]]; destruct lon_arr as [|lon [|lon' lon_arr]];
      try done; cbn [map mbind result_mbind result_bind length].
    + case_decide as E; [discriminate E|].
      cbn [mbind result_mbind result_bind map]. f_equal.
      f_equal; [apply haversine_item|]. f_equal; [apply haversine_item|].
      rewrite !map_map. apply map_ext. intros lon''. apply haversine_item.
    + case_decide as E; [|by rewrite !length_map in E].
      cbn [mbind result_mbind result_bind map zip_with]. f_equal.
      f_equal; [apply haversine_item|]. f_equal; [apply haversine_item|].
      apply list_eq. intros i.
      repeat first [rewrite list_lookup_fmap | rewrite lookup_zip_with].
      destruct (lat_arr !! i) as [lat''|]; [|done].
      cbn. f_equal. apply haversine_item.
Qed.

(** In real arithmetic, a point at the reference point is at distance 0. *)
Lemma haversine_km_same_point (lat lon : R) : haversine_km lat lon lat lon = 0.
Proof.
  unfold haversine_km.
  replace ((lat * PI / 180 - lat * PI / 180) / 2) with 0 by lra.
  replace ((lon * PI / 180 - lon * PI / 180) / 2) with 0 by lra.
  rewrite sin_0. unfold Rsqr.
  replace (0 * 0 + cos (lat * PI / 180) * cos (lat * PI / 180) * (0 * 0)) with 0 by lra.
  rewrite sqrt_0. replace (1 - 0) with 1 by lra. rewrite sqrt_1.
  unfold np.arctan2. destruct (Rlt_dec 0 1) as [_|H]; [|lra].
  replace (0 / 1) with 0 by lra. rewrite atan_0. lra.
Qed.

Lemma get_haversine_distance_same_point (lat lon : R) :
  get_haversine_distance [Num lat] [Num lon] lat lon = Ok [0].
Proof.
  rewrite get_haversine_distance_broadcast. cbn. unfold np.broadcast. cbn.
  by rewrite haversine_km_same_point.
Qed.

End haversine.

(** ** Concrete coordinates *)

(** A conversion for the concrete inputs: strings of decimal digits. *)
Fixpoint digits_value (acc : Z) (l : list ascii) : option Z :=
  match l with
  | [] => Some acc
  | a :: l' => d ← digit a; digits_value (10 * acc + d) l'
  end.

Definition float_of_digits (s : string) : option R :=
  match String.list_ascii_of_string s with
  | [] => None
  | l => IZR <$> digits_value 0 l
  end.

Lemma get_haversine_distance_formula_witness :
  length [0; 90]%R = length [0; 0]%R ∧
  ∃ distances,
    get_haversine_distance float_of_digits (Num <$> [0; 90]%R) (Num <$> [0; 0]%R) 0 0
      = Ok distances ∧
    length distances = length [0; 90]%R ∧
    ∀ (i : nat) lat lon,
      [0; 90]%R !! i = Some lat → [0; 0]%R !! i = Some lon →
      distances !! i = Some (haversine_km 0 0 lat lon).
Proof.
  split; [reflexivity|].
  apply (get_haversine_distance_formula float_of_digits [0; 90]%R [0; 0]%R 0 0).
  reflexivity.
Defined.

(** The equator and the pole seen from the origin, as in the repository's
    test on arrays. *)
Example haversine_km_pole : haversine_km 0 0 90 0 = (6378 * (PI / 2))%R.
Proof.
  unfold haversine_km.
  replace ((0 * PI / 180 - 90 * PI / 180) / 2)%R with (- (PI / 4))%R by lra.
  replace ((0 * PI / 180 - 0 * PI / 180) / 2)%R with 0%R by lra.
  replace (90 * PI / 180)%R with (PI / 2)%R by lra.
  rewrite sin_neg, <- Rsqr_neg, sin_0, cos_PI2.
  assert ((sin (PI / 4))² = 1 / 2)%R as Hs.
  { pose proof (sin2_cos2 (PI / 4)) as H. rewrite <- sin_cos_PI4 in H. lra. }
  rewrite Hs.
  replace (1 / 2 + 0 * cos (0 * PI / 180) * 0²)%R with (1 / 2)%R by (unfold Rsqr; lra).
  replace (1 - 1 / 2)%R with (1 / 2)%R by lra.
  assert (0 < sqrt (1 / 2))%R as Hpos by (apply sqrt_lt_R0; lra).
  unfold np.arctan2. destruct (Rlt_dec 0 (sqrt (1 / 2))) as [_|H]; [|done].
  replace (sqrt (1 / 2) / sqrt (1 / 2))%R with 1%R by (field; lra).
  rewrite atan_1. lra.
Qed.

(** * Further properties of the haversine distance *)

Section haversine_properties.
Local Open Scope R_scope.
Variable float_of_string : string → option R.

(** ** The angle returned by [arctan2] on the first quadrant of the unit circle *)

Lemma arctan2_unit_quadrant (a : R) :
  0 <= a <= 1 →
  let θ := np.arctan2 (sqrt a) (sqrt (1 - a)) in
  0 <= θ <= PI / 2 ∧ sin θ = sqrt a ∧ cos θ = sqrt (1 - a).
Proof.
  intros [Ha0 Ha1] θ. subst θ. unfold np.arctan2.
  pose proof PI_RGT_0 as HPI.
  destruct (Rlt_dec 0 (sqrt (1 - a))) as [Hx|Hx].
  - assert (0 < 1 - a) as H1a.
    { destruct (Rle_lt_dec (1 - a) 0) as [H|H]; [|done].
      rewrite (sqrt_neg_0 _ H) in Hx. lra. }
    set (x := sqrt (1 - a)) in *. set (y := sqrt a).
    assert (0 <= y) as Hy by apply sqrt_pos.
    assert (x * x = 1 - a) as Hxx by (apply sqrt_sqrt; lra).
    assert (y * y = a) as Hyy by (apply sqrt_sqrt; lra).
    assert (0 <= y / x) as Ht.
    { unfold Rdiv. apply Rmult_le_pos; [lra|]. left. by apply Rinv_0_lt_compat. }
    assert (sqrt (1 + (y / x)²) = / x) as Hs.
    { replace (1 + (y / x)²) with ((/ x)²).
      - apply sqrt_Rsqr. left. by apply Rinv_0_lt_compat.
      - unfold Rsqr. field_simplify; [|lra|lra].
        replace (x ^ 2) with (1 - a) by (simpl; lra).
        replace (y ^ 2) with a by (simpl; lra). field. lra. }
    split; [|split].
    + split.
      * destruct Ht as [Ht|Ht].
        -- left. rewrite <- atan_0. by apply atan_increasing.
        -- rewrite <- Ht, atan_0. lra.
      * left. apply atan_bound.
    + rewrite sin_atan, Hs. field. lra.
    + rewrite cos_atan, Hs. field. lra.
  - assert (sqrt (1 - a) = 0) as Hx0 by (pose proof (sqrt_pos (1 - a)); lra).
    assert (a = 1) as ->.
    { apply sqrt_eq_0 in Hx0; lra. }
    rewrite Hx0, sqrt_1.
    destruct (Rlt_dec 0 0) as [H|_]; [lra|].
    destruct (Rlt_dec 0 1) as [_|H]; [|lra].
    rewrite sin_PI2, cos_PI2. lra.
Qed.

(** The central angle of the formula and its cosine. *)
Lemma haversine_angle (a : R) :
  0 <= a <= 1 →
  let c := 2 * np.arctan2 (sqrt a) (sqrt (1 - a)) in
  0 <= c <= PI ∧ cos c = 1 - 2 * a.
Proof.
  intros Ha c. destruct (arctan2_unit_quadrant a Ha) as ([H0 H1] & Hsin & _).
  subst c. split; [lra|].
  rewrite cos_2a_sin, Hsin.
  replace (2 * sqrt a * sqrt a) with (2 * (sqrt a * sqrt a)) by ring.
  rewrite sqrt_sqrt by lra. ring.
Qed.

Lemma haversine_a_cosines (x y d : R) :
  1 - 2 * ((sin ((y - x) / 2))² + cos x * cos y * (sin (d / 2))²)
  = sin x * sin y + cos x * cos y * cos d.
Proof.
  replace d with (2 * (d / 2)) at 2 by lra.
  rewrite (cos_2a_sin (d / 2)).
  assert (cos (y - x) = 1 - 2 * (sin ((y - x) / 2))²) as Hd.
  { replace (y - x) with (2 * ((y - x) / 2)) at 1 by lra.
    rewrite cos_2a_sin. unfold Rsqr. ring. }
  rewrite cos_minus in Hd. unfold Rsqr in *. lra.
Qed.

(** The great-circle distance by the spherical law of cosines. *)
Definition great_circle_km (lat_point lon_point lat lon : R) : R :=
  let lat1 := lat * PI / 180 in
  let lon1 := lon * PI / 180 in
  let lat2 := lat_point * PI / 180 in
  let lon2 := lon_point * PI / 180 in
  6378 * acos (sin lat1 * sin lat2 + cos lat1 * cos lat2 * cos (lon2 - lon1)).

Lemma haversine_km_range (lat_point lon_point lat lon : R) :
  0 <= haversine_km lat_point lon_point lat lon <= 6378 * PI.
Proof.
  unfold haversine_km.
  pose proof (haversine_a_bounds (lat * PI / 180) (lat_point * PI / 180)
                (lon_point * PI / 180 - lon * PI / 180)) as Ha.
  destruct (haversine_angle _ Ha) as [[H0 H1] _]. cbv zeta in H0, H1. lra.
Qed.

Lemma haversine_km_great_circle (lat_point lon_point lat lon : R) :
  haversine_km lat_point lon_point lat lon = great_circle_km lat_point lon_point lat lon.
Proof.
  unfold haversine_km, great_circle_km.
  pose proof (haversine_a_bounds (lat * PI / 180) (lat_point * PI / 180)
                (lon_point * PI / 180 - lon * PI / 180)) as Ha.
  destruct (haversine_angle _ Ha) as [Hc Hcos]. cbv zeta in Hc, Hcos.
  rewrite haversine_a_cosines in Hcos.
  cbv zeta. f_equal. rewrite <- Hcos. symmetry. by apply acos_cos.
Qed.

Lemma haversine_km_sym (lat1 lon1 lat2 lon2 : R) :
  haversine_km lat2 lon2 lat1 lon1 = haversine_km lat1 lon1 lat2 lon2.
Proof.
  unfold haversine_km. cbv zeta.
  replace ((lat1 * PI / 180 - lat2 * PI / 180) / 2)
    with (- ((lat2 * PI / 180 - lat1 * PI / 180) / 2)) by lra.
  replace ((lon1 * PI / 180 - lon2 * PI / 180) / 2)
    with (- ((lon2 * PI / 180 - lon1 * PI / 180) / 2)) by lra.
  rewrite !sin_neg, <- !Rsqr_neg.
  by rewrite (Rmult_comm (cos (lat2 * PI / 180)) (cos (lat1 * PI / 180))).
Qed.

Lemma broadcast_Forall (P : R → Prop) (f : R → R → R) (xs ys zs : list R) :
  (∀ x y, P (f x y)) → np.broadcast f xs ys = Ok zs → Forall P zs.
Proof.
  intros HP. unfold np.broadcast. case_decide.
  - intros [= <-]. apply Forall_forall. intros z Hz.
    apply list_elem_of_lookup in Hz as [i Hi].
    rewrite lookup_zip_with in Hi.
    destruct (xs !! i); [|done]. destruct (ys !! i); [|done].
    cbn in Hi. injection Hi as <-. apply HP.
  - destruct xs as [|x [|x' xs]]; destruct ys as [|y [|y' ys]]; try done;
      intros [= <-]; apply Forall_forall; intros z Hz; cbn in Hz;
      repeat match type of Hz with
             | _ ∈ _ :: _ => apply elem_of_cons in Hz as [-> | Hz]; [apply HP|]
             end;
      first [ by apply not_elem_of_nil in Hz
            | apply list_elem_of_fmap in Hz as (? & -> & _); apply HP ].
Qed.

Lemma asarray_float64_cast (seq : list Cell) (xs : list R) :
  Forall2 (λ c x, np.cast_float64 float_of_string c = Ok x) seq xs →
  np.asarray_float64 float_of_string seq = Ok xs.
Proof.
  unfold np.asarray_float64. induction 1 as [|c x seq xs Hc _ IH]; [done|].
  cbn. rewrite Hc. cbn. by rewrite IH.
Qed.

(** ** Shapes *)

(** X1.  A single latitude goes with every longitude, and a single longitude
    with every latitude: the call returns one distance per item of the
    longer sequence. *)
Theorem get_haversine_distance_stretch (lat lon : R) (lats lons : list R)
    (lat_point lon_point : R) :
  get_haversine_distance float_of_string [Num lat] (Num <$> lons) lat_point lon_point
    = Ok (map (haversine_km lat_point lon_point lat) lons) ∧
  get_haversine_distance float_of_string (Num <$> lats) [Num lon] lat_point lon_point
    = Ok (map (λ lat', haversine_km lat_point lon_point lat' lon) lats).
Proof.
  split.
  - rewrite get_haversine_distance_broadcast.
    rewrite (asarray_float64_Num _ [lat]), asarray_float64_Num.
    cbn [mbind result_mbind result_bind]. unfold np.broadcast.
    case_decide as E.
    + destruct lons as [|lon' [|? ?]]; done.
    + destruct lons as [|lon' [|? ?]]; done.
  - rewrite get_haversine_distance_broadcast.
    rewrite (asarray_float64_Num _ [lon]), asarray_float64_Num.
    cbn [mbind result_mbind result_bind]. unfold np.broadcast.
    case_decide as E.
    + destruct lats as [|lat' [|? ?]]; done.
    + destruct lats as [|lat' [|? ?]]; done.
Qed.

(** X2.  Sequences of floats of different lengths, neither of length 1,
    make the call raise [ValueError]. *)
Theorem get_haversine_distance_shape_mismatch (lats lons : list R)
    (lat_point lon_point : R) :
  length lats ≠ length lons → length lats ≠ 1%nat → length lons ≠ 1%nat →
  get_haversine_distance float_of_string (Num <$> lats) (Num <$> lons) lat_point lon_point
  = Raise ValueError.
Proof.
  intros Hne H1 H2. rewrite get_haversine_distance_broadcast, !asarray_float64_Num.
  cbn [mbind result_mbind result_bind]. unfold np.broadcast.
  rewrite decide_False by done.
  destruct lats as [|lat [|? ?]]; destruct lons as [|lon [|? ?]]; done.
Qed.

(** X3.  A string that converts to a float stands for that float: the call
    on items that all convert is the call on the converted numbers. *)
Theorem get_haversine_distance_cast (lat_series lon_series : list Cell)
    (lats lons : list R) (lat_point lon_point : R) :
  Forall2 (λ c x, np.cast_float64 float_of_string c = Ok x) lat_series lats →
  Forall2 (λ c x, np.cast_float64 float_of_string c = Ok x) lon_series lons →
  get_haversine_distance float_of_string lat_series lon_series lat_point lon_point
  = get_haversine_distance float_of_string (Num <$> lats) (Num <$> lons)
      lat_point lon_point.
Proof.
  intros Hlat Hlon. rewrite !get_haversine_distance_broadcast.
  by rewrite (asarray_float64_cast _ _ Hlat), (asarray_float64_cast _ _ Hlon),
    !asarray_float64_Num.
Qed.

(** ** Geometry, in real arithmetic *)

(** X4.  Every distance the call returns lies between 0 and half the
    circumference of the sphere, 6378·π km. *)
Theorem get_haversine_distance_range (lat_series lon_series : list Cell)
    (lat_point lon_point : R) (distances : list R) :
  get_haversine_distance float_of_string lat_series lon_series lat_point lon_point
    = Ok distances →
  Forall (λ d, 0 <= d <= 6378 * PI) distances.
Proof.
  rewrite get_haversine_distance_broadcast.
  destruct (np.asarray_float64 float_of_string lat_series) as [lat_arr|e]; [|done].
  destruct (np.asarray_float64 float_of_string lon_series) as [lon_arr|e]; [|done].
  cbn [mbind result_mbind result_bind].
  apply broadcast_Forall. intros lat lon. apply haversine_km_range.
Qed.

(** X5.  The distance from a point to the reference point is the distance
    from the reference point to the point. *)
Theorem get_haversine_distance_symmetric (lat1 lon1 lat2 lon2 : R) :
  get_haversine_distance float_of_string [Num lat1] [Num lon1] lat2 lon2
  = get_haversine_distance float_of_string [Num lat2] [Num lon2] lat1 lon1.
Proof.
  rewrite !get_haversine_distance_broadcast. cbn. unfold np.broadcast. cbn.
  by rewrite haversine_km_sym.
Qed.

(** X6.  On sequences of equal length, each distance is the great-circle
    distance of the spherical law of cosines on a sphere of radius 6378 km:
    6378·acos(sin φ1·sin φ2 + cos φ1·cos φ2·cos Δλ). *)
Theorem get_haversine_distance_great_circle (lats lons : list R)
    (lat_point lon_point : R) :
  length lats = length lons →
  get_haversine_distance float_of_string (Num <$> lats) (Num <$> lons) lat_point lon_point
  = Ok (zip_with (great_circle_km lat_point lon_point) lats lons).
Proof.
  intros Hlen. rewrite get_haversine_distance_broadcast, !asarray_float64_Num.
  cbn [mbind result_mbind result_bind]. unfold np.broadcast.
  rewrite decide_True by done. f_equal.
  apply list_eq. intros i. rewrite !lookup_zip_with.
  destruct (lats !! i) as [lat|]; [|done]. destruct (lons !! i) as [lon|]; [|done].
  cbn. f_equal. apply haversine_km_great_circle.
Qed.

(** X7.  On sequences of equal length, a point that is the reference point
    is at distance 0. *)
Theorem get_haversine_distance_zero_at_reference (lats lons : list R)
    (lat_point lon_point : R) :
  length lats = length lons →
  ∃ distances,
    get_haversine_distance float_of_string (Num <$> lats) (Num <$> lons)
      lat_point lon_point = Ok distances ∧
    ∀ i : nat, lats !! i = Some lat_point → lons !! i = Some lon_point →
               distances !! i = Some 0.
Proof.
  intros Hlen. rewrite get_haversine_distance_broadcast, !asarray_float64_Num.
  cbn [mbind result_mbind result_bind]. unfold np.broadcast.
  rewrite decide_True by done. eexists. split; [reflexivity|].
  intros i Hlat Hlon. rewrite lookup_zip_with, Hlat, Hlon. cbn.
  by rewrite haversine_km_same_point.
Qed.

End haversine_properties.

Lemma get_haversine_distance_shape_mismatch_witness :
  length [0; 90]%R ≠ length [0; 10; 20]%R ∧
  length [0; 90]%R ≠ 1%nat ∧ length [0; 10; 20]%R ≠ 1%nat ∧
  get_haversine_distance float_of_digits (Num <$> [0; 90]%R) (Num <$> [0; 10; 20]%R) 0 0
  = Raise ValueError.
Proof.
  assert (length [0; 90]%R ≠ length [0; 10; 20]%R) as H by (simpl; lia).
  assert (length [0; 90]%R ≠ 1%nat) as H1 by (simpl; lia).
  assert (length [0; 10; 20]%R ≠ 1%nat) as H2 by (simpl; lia).
  split; [exact H|]. split; [exact H1|]. split; [exact H2|].
  exact (get_haversine_distance_shape_mismatch float_of_digits _ _ 0%R 0%R H H1 H2).
Defined.

Lemma float_of_digits_12 : float_of_digits "12" = Some 12%R.
Proof. vm_compute. reflexivity. Qed.

Lemma get_haversine_distance_cast_witness :
  Forall2 (λ c x, np.cast_float64 float_of_digits c = Ok x) [Str "12"; Num 90%R] [12; 90]%R ∧
  Forall2 (λ c x, np.cast_float64 float_of_digits c = Ok x) [Num 0%R; Str "12"] [0; 12]%R ∧
  get_haversine_distance float_of_digits [Str "12"; Num 90%R] [Num 0%R; Str "12"] 0 0
  = get_haversine_distance float_of_digits (Num <$> [12; 90]%R) (Num <$> [0; 12]%R) 0 0.
Proof.
  assert (np.cast_float64 float_of_digits (Str "12") = Ok 12%R) as H12.
  { unfold np.cast_float64. by rewrite float_of_digits_12. }
  assert (Forall2 (λ c x, np.cast_float64 float_of_digits c = Ok x)
            [Str "12"; Num 90%R] [12; 90]%R) as Hlat by (repeat constructor; done).
  assert (Forall2 (λ c x, np.cast_float64 float_of_digits c = Ok x)
            [Num 0%R; Str "12"] [0; 12]%R) as Hlon by (repeat constructor; done).
  split; [exact Hlat|]. split; [exact Hlon|].
  exact (get_haversine_distance_cast float_of_digits _ _ _ _ 0%R 0%R Hlat Hlon).
Defined.

Lemma get_haversine_distance_range_witness :
  get_haversine_distance float_of_digits [Num 0%R] [Num 0%R] 0 0 = Ok [0%R] ∧
  Forall (λ d, 0 <= d <= 6378 * PI)%R [0%R].
Proof.
  pose proof (get_haversine_distance_same_point float_of_digits 0%R 0%R) as H.
  split; [exact H|].
  exact (get_haversine_distance_range float_of_digits _ _ 0%R 0%R _ H).
Defined.

Lemma get_haversine_distance_great_circle_witness :
  length [0; 90]%R = length [0; 0]%R ∧
  get_haversine_distance float_of_digits (Num <$> [0; 90]%R) (Num <$> [0; 0]%R) 0 0
  = Ok (zip_with (great_circle_km 0 0) [0; 90]%R [0; 0]%R).
Proof.
  split; [reflexivity|].
  apply (get_haversine_distance_great_circle float_of_digits [0; 90]%R [0; 0]%R 0%R 0%R).
  reflexivity.
Defined.

Lemma get_haversine_distance_zero_at_reference_witness :
  length [0; 90]%R = length [0; 0]%R ∧
  ∃ distances,
    get_haversine_distance float_of_digits (Num <$> [0; 90]%R) (Num <$> [0; 0]%R) 90 0
      = Ok distances ∧
    ∀ i : nat, [0; 90]%R !! i = Some 90%R → [0; 0]%R !! i = Some 0%R →
               distances !! i = Some 0%R.
Proof.
  split; [reflexivity|].
  apply (get_haversine_distance_zero_at_reference float_of_digits [0; 90]%R [0; 0]%R
           90%R 0%R).
  reflexivity.
Defined.

(** * Further properties of the burning cost *)


Lemma sum_years_bounds (payouts : gmap Z Q) (lo hi : Q) (n : nat) (start : Z) :
  (∀ y, start ≤ y < start + Z.of_nat n → (lo <= payout_of payouts y <= hi)%Q) →
  (inject_Z (Z.of_nat n) * lo <= sum_years payouts start n
   ∧ sum_years payouts start n <= inject_Z (Z.of_nat n) * hi)%Q.
Proof.
  revert start. induction n as [|n IH]; intros start H.
  - cbn [sum_years]. change (inject_Z (Z.of_nat 0)) with 0%Q. split; Lqa.lra.
  - cbn [sum_years].
    destruct (H start) as [Hlo Hhi]; [lia|].
    destruct (IH (start + 1)) as [IHlo IHhi]; [intros y Hy; apply H; lia|].
    replace (Z.of_nat (S n)) with (Z.of_nat n + 1) by lia.
    rewrite inject_Z_plus. change (inject_Z 1) with 1%Q. split; Lqa.lra.
Qed.

Lemma sum_years_le (p1 p2 : gmap Z Q) (n : nat) (start : Z) :
  (∀ y, start ≤ y < start + Z.of_nat n → (payout_of p1 y <= payout_of p2 y)%Q) →
  (sum_years p1 start n <= sum_years p2 start n)%Q.
Proof.
  revert start. induction n as [|n IH]; intros start H; cbn [sum_years].
  - apply Qle_refl.
  - specialize (H start ltac:(lia)) as Hs.
    specialize (IH (start + 1) ltac:(intros y Hy; apply H; lia)). Lqa.lra.
Qed.

Lemma sum_years_app (payouts : gmap Z Q) (n1 n2 : nat) (start : Z) :
  (sum_years payouts start (n1 + n2)
   == sum_years payouts start n1 + sum_years payouts (start + Z.of_nat n1) n2)%Q.
Proof.
  revert start. induction n1 as [|n1 IH]; intros start.
  - cbn [sum_years Nat.add]. replace (start + Z.of_nat 0) with start by lia. Lqa.lra.
  - cbn [sum_years Nat.add]. rewrite IH.
    replace (start + 1 + Z.of_nat n1) with (start + Z.of_nat (S n1)) by lia. Lqa.lra.
Qed.

(** The value a call returns on a window that has years. *)
Lemma compute_burning_cost_run (payouts : gmap Z Q) (start_year end_year : Z) :
  start_year ≤ end_year →
  ∃ cost,
    compute_burning_cost payouts start_year end_year = Ok cost ∧
    (cost == sum_years payouts start_year (Z.to_nat (end_year - start_year + 1))
             / inject_Z (end_year - start_year + 1))%Q.
Proof.
  intros Hle. unfold compute_burning_cost.
  destruct (Z.gtb_spec start_year end_year) as [Hgt|_]; [lia|].
  destruct (Z.eqb_spec (end_year - start_year + 1) 0) as [H0|_]; [lia|].
  eexists. split; [reflexivity|]. unfold Py.range.
  replace (end_year + 1 - start_year) with (Z.of_nat (Z.to_nat (end_year - start_year + 1)))
    by lia.
  by rewrite py_sum_range.
Qed.

Lemma window_years_pos (start_year end_year : Z) :
  start_year ≤ end_year → (0 < inject_Z (end_year - start_year + 1))%Q.
Proof.
  intros H. change 0%Q with (inject_Z 0). rewrite <- Zlt_Qlt. lia.
Qed.

Lemma burning_cost_between (payouts : gmap Z Q) (start_year end_year : Z) (lo hi cost : Q) :
  start_year ≤ end_year →
  (∀ y, start_year ≤ y ≤ end_year → (lo <= payout_of payouts y <= hi)%Q) →
  (cost == sum_years payouts start_year (Z.to_nat (end_year - start_year + 1))
           / inject_Z (end_year - start_year + 1))%Q →
  (lo <= cost <= hi)%Q.
Proof.
  intros Hle Hb ->.
  pose proof (window_years_pos _ _ Hle) as Hpos.
  destruct (sum_years_bounds payouts lo hi (Z.to_nat (end_year - start_year + 1)) start_year)
    as [Hlo Hhi]; [intros y Hy; apply Hb; lia|].
  rewrite Z2Nat.id in Hlo, Hhi by lia.
  split.
  - apply Qle_shift_div_l; [done|]. by rewrite Qmult_comm.
  - apply Qle_shift_div_r; [done|]. by rewrite Qmult_comm.
Qed.

(** X8.  In exact arithmetic (payouts as rationals, no rounding): when
    every year of the window has a payout between [lo] and [hi] (an absent
    year counting for 0), so has the burning cost: it is never below the
    smallest nor above the largest yearly payout of the window. *)
Theorem compute_burning_cost_bounds (payouts : gmap Z Q) (start_year end_year : Z)
    (lo hi : Q) :
  start_year ≤ end_year →
  (∀ y, start_year ≤ y ≤ end_year → (lo <= payout_of payouts y <= hi)%Q) →
  ∃ cost,
    compute_burning_cost payouts start_year end_year = Ok cost ∧ (lo <= cost <= hi)%Q.
Proof.
  intros Hle Hb.
  destruct (compute_burning_cost_run payouts _ _ Hle) as (cost & Hrun & Hcost).
  exists cost. split; [done|]. by eapply burning_cost_between.
Qed.

(** X9.  The burning cost is monotone in the yearly payouts of the window. *)
Theorem compute_burning_cost_le (p1 p2 : gmap Z Q) (start_year end_year : Z) :
  start_year ≤ end_year →
  (∀ y, start_year ≤ y ≤ end_year → (payout_of p1 y <= payout_of p2 y)%Q) →
  ∃ cost1 cost2,
    compute_burning_cost p1 start_year end_year = Ok cost1 ∧
    compute_burning_cost p2 start_year end_year = Ok cost2 ∧
    (cost1 <= cost2)%Q.
Proof.
  intros Hle Hp.
  destruct (compute_burning_cost_run p1 _ _ Hle) as (cost1 & Hrun1 & Hc1).
  destruct (compute_burning_cost_run p2 _ _ Hle) as (cost2 & Hrun2 & Hc2).
  exists cost1, cost2. split; [done|]. split; [done|].
  rewrite Hc1, Hc2. unfold Qdiv. apply Qmult_le_compat_r.
  - apply sum_years_le. intros y Hy. apply Hp. lia.
  - apply Qinv_le_0_compat, Qlt_le_weak, window_years_pos, Hle.
Qed.

(** X10.  Only the years of the window count: two mappings that agree on the
    window give the same outcome, whatever they hold for other years. *)
Theorem compute_burning_cost_window_only (p1 p2 : gmap Z Q) (start_year end_year : Z) :
  (∀ y, start_year ≤ y ≤ end_year → p1 !! y = p2 !! y) →
  compute_burning_cost p1 start_year end_year = compute_burning_cost p2 start_year end_year.
Proof.
  intros Hp. unfold compute_burning_cost.
  destruct (start_year >? end_year); [done|].
  destruct (end_year - start_year + 1 =? 0); [done|].
  do 3 f_equal. apply map_ext_in. intros y Hy.
  apply list_elem_of_In, elem_of_seqZ in Hy. rewrite Hp by (unfold Py.range in *; lia). done.
Qed.

(** X11.  In exact arithmetic (payouts as rationals, no rounding),
    splitting a window in two: the cost of the whole window, times its
    number of years, is the sum of the costs of the two parts, each times
    its number of years. *)
Theorem compute_burning_cost_split (payouts : gmap Z Q) (start_year mid_year end_year : Z) :
  start_year ≤ mid_year → mid_year < end_year →
  ∃ cost cost1 cost2,
    compute_burning_cost payouts start_year end_year = Ok cost ∧
    compute_burning_cost payouts start_year mid_year = Ok cost1 ∧
    compute_burning_cost payouts (mid_year + 1) end_year = Ok cost2 ∧
    (cost * inject_Z (end_year - start_year + 1)
     == cost1 * inject_Z (mid_year - start_year + 1)
        + cost2 * inject_Z (end_year - mid_year))%Q.
Proof.
  intros H1 H2.
  destruct (compute_burning_cost_run payouts start_year end_year) as (c & Hc & Ec); [lia|].
  destruct (compute_burning_cost_run payouts start_year mid_year) as (c1 & Hc1 & Ec1); [lia|].
  destruct (compute_burning_cost_run payouts (mid_year + 1) end_year) as (c2 & Hc2 & Ec2);
    [lia|].
  exists c, c1, c2. split; [done|]. split; [done|]. split; [done|].
  rewrite Ec, Ec1, Ec2.
  replace (end_year - (mid_year + 1) + 1) with (end_year - mid_year) by lia.
  assert (∀ q z, 0 < z → (q / inject_Z z * inject_Z z == q)%Q) as Hdiv.
  { intros q z Hz. unfold Qdiv. rewrite <- Qmult_assoc, (Qmult_comm (/ _)), Qmult_inv_r.
    - apply Qmult_1_r.
    - intros E. assert (0 < inject_Z z)%Q as Hp
        by (change 0%Q with (inject_Z 0); rewrite <- Zlt_Qlt; lia).
      rewrite E in Hp. by apply Qlt_irrefl in Hp. }
  rewrite !Hdiv by lia.
  replace (Z.to_nat (end_year - start_year + 1))
    with (Z.to_nat (mid_year - start_year + 1) + Z.to_nat (end_year - mid_year))%nat by lia.
  rewrite sum_years_app.
  replace (start_year + Z.of_nat (Z.to_nat (mid_year - start_year + 1))) with (mid_year + 1)
    by lia.
  reflexivity.
Qed.

(** * Further properties of the payout engine *)

Section payout_properties.
Variable parse_datetime : string → option Timestamp.

(** ** The value of a year *)

Lemma yearly_value (payout_rules : list PayoutRule) (df : DataFrame) (y : Z) (v : Q) :
  yearly parse_datetime payout_rules df !! y = Some v →
  ∃ r, r ∈ df_rows df ∧ event_year parse_datetime r = Some y ∧
       v = compute_payout payout_rules r ∧
       ∀ r', r' ∈ df_rows df → event_year parse_datetime r' = Some y →
             (compute_payout payout_rules r' <= v)%Q.
Proof.
  rewrite lookup_yearly. intros Hv. apply series_max_spec in Hv as [Hin Hle].
  apply list_elem_of_fmap in Hin as (r & -> & Hr).
  apply list_elem_of_filter in Hr as [Hy Hr].
  exists r. split; [done|]. split; [done|]. split; [done|].
  intros r' Hr' Hy'. apply Hle. apply list_elem_of_fmap. exists r'. split; [done|].
  by apply list_elem_of_filter.
Qed.

Lemma yearly_is_Some (payout_rules : list PayoutRule) (df : DataFrame) (y : Z) :
  is_Some (yearly parse_datetime payout_rules df !! y) ↔
  ∃ r, r ∈ df_rows df ∧ event_year parse_datetime r = Some y.
Proof.
  split.
  - intros [v Hv]. apply yearly_value in Hv as (r & Hr & Hy & _). eauto.
  - intros (r & Hr & Hy). rewrite lookup_yearly.
    destruct (pd.series_max _) as [v|] eqn:E; [eauto|].
    apply series_max_None, fmap_nil_inv in E.
    assert (r ∈ events_of_year parse_datetime (df_rows df) y) as Hf
      by by apply list_elem_of_filter.
    rewrite E in Hf. by apply not_elem_of_nil in Hf.
Qed.

Lemma yearly_le (R1 R2 : list PayoutRule) (df1 df2 : DataFrame) (y : Z) (v1 v2 : Q) :
  (∀ r, r ∈ df_rows df1 → event_year parse_datetime r = Some y →
        ∃ r', r' ∈ df_rows df2 ∧ event_year parse_datetime r' = Some y ∧
              (compute_payout R1 r <= compute_payout R2 r')%Q) →
  yearly parse_datetime R1 df1 !! y = Some v1 →
  yearly parse_datetime R2 df2 !! y = Some v2 →
  (v1 <= v2)%Q.
Proof.
  intros H Hv1 Hv2.
  apply yearly_value in Hv1 as (r & Hr & Hy & -> & _).
  apply yearly_value in Hv2 as (_ & _ & _ & _ & Hmax).
  destruct (H r Hr Hy) as (r' & Hr' & Hy' & Hle).
  eapply Qle_trans; [exact Hle|]. by apply Hmax.
Qed.

Lemma yearly_dom (R1 R2 : list PayoutRule) (df1 df2 : DataFrame) :
  (∀ y, (∃ r, r ∈ df_rows df1 ∧ event_year parse_datetime r = Some y) ↔
        (∃ r, r ∈ df_rows df2 ∧ event_year parse_datetime r = Some y)) →
  dom (yearly parse_datetime R1 df1) = dom (yearly parse_datetime R2 df2).
Proof.
  intros H. apply set_eq. intros y. rewrite !elem_of_dom, !yearly_is_Some. apply H.
Qed.

Lemma compute_payout_range (payout_rules : list PayoutRule) (r : Row) (lo hi : Q) :
  (∀ rule, rule ∈ payout_rules → (lo <= payout rule <= hi)%Q) →
  (lo <= 0 <= hi)%Q →
  (lo <= compute_payout payout_rules r <= hi)%Q.
Proof.
  intros Hr H0.
  destruct (compute_payout_spec payout_rules r) as [(rule & Hin & _ & -> & _) | [_ ->]];
    [by apply Hr | done].
Qed.

Lemma compute_payout_fields (payout_rules : list PayoutRule) (r r' : Row) :
  row_mag r = row_mag r' → row_depth r = row_depth r' →
  compute_payout payout_rules r = compute_payout payout_rules r'.
Proof.
  intros Hm Hd. unfold compute_payout.
  replace (filter (qualifies r) payout_rules) with (filter (qualifies r') payout_rules); [done|].
  apply list_filter_iff. intros rule. unfold qualifies. by rewrite Hm, Hd.
Qed.

(** The caller's frame after a call. *)
Lemma compute_payouts_run_lookup (σ : gmap loc DataFrame) (l : loc) (df : DataFrame)
    (payout_rules : list PayoutRule) :
  σ !! l = Some df →
  ∃ σ', compute_payouts parse_datetime l payout_rules σ
        = Ok (yearly parse_datetime payout_rules df, σ') ∧
        σ' !! l = Some df.
Proof.
  intros Hl. eexists. split; [by apply compute_payouts_run|].
  destruct (fresh_lookup_insert σ (converted parse_datetime df)) as [H2 _].
  pose proof (fresh_lookup σ) as H1.
  rewrite !lookup_insert_ne; [done| |]; intros <-; congruence.
Qed.

(** ** What the result depends on *)

(** Two rows with the same time, magnitude and depth. *)
Definition same_event (r r' : Row) : Prop :=
  row_time r = row_time r' ∧ row_mag r = row_mag r' ∧ row_depth r = row_depth r'.

(** X12.  The result depends on the time, magnitude and depth of the rows
    only: latitudes, longitudes and payout or year columns that the
    caller's frame may already have play no part. *)
Theorem compute_payouts_ignores_coordinates (σ1 σ2 : gmap loc DataFrame) (l1 l2 : loc)
    (df1 df2 : DataFrame) (payout_rules : list PayoutRule) :
  σ1 !! l1 = Some df1 → σ2 !! l2 = Some df2 →
  Forall2 same_event (df_rows df1) (df_rows df2) →
  ∃ res σ1' σ2',
    compute_payouts parse_datetime l1 payout_rules σ1 = Ok (res, σ1') ∧
    compute_payouts parse_datetime l2 payout_rules σ2 = Ok (res, σ2').
Proof.
  intros H1 H2 Hrows. eexists _, _, _.
  split; [by apply compute_payouts_run|].
  rewrite (compute_payouts_run _ _ _ _ _ H2). do 2 f_equal.
  apply map_eq. intros y. rewrite !lookup_yearly. f_equal.
  unfold payouts_of_year, events_of_year.
  induction Hrows as [|r r' rows rows' (Ht & Hm & Hd) _ IH]; [done|].
  rewrite !filter_cons.
  assert (event_year parse_datetime r = event_year parse_datetime r') as Hy
    by (unfold event_year, event_time; by rewrite Ht).
  rewrite Hy. case_decide; [|exact IH].
  cbn [map]. f_equal; [|exact IH]. symmetry. by apply compute_payout_fields.
Qed.

(** X13.  When every rule's payout lies between [lo] and [hi], with
    [lo <= 0 <= hi], so does every value of the result; with payouts that
    are percentages, every year's value is one. *)
Theorem compute_payouts_value_range (σ : gmap loc DataFrame) (l : loc) (df : DataFrame)
    (payout_rules : list PayoutRule) (lo hi : Q) :
  σ !! l = Some df →
  (∀ rule, rule ∈ payout_rules → (lo <= payout rule <= hi)%Q) →
  (lo <= 0 <= hi)%Q →
  ∃ res σ',
    compute_payouts parse_datetime l payout_rules σ = Ok (res, σ') ∧
    ∀ y v, res !! y = Some v → (lo <= v <= hi)%Q.
Proof.
  intros Hl Hr H0. eexists _, _. split; [by apply compute_payouts_run|].
  intros y v Hv. apply yearly_value in Hv as (r & _ & _ & -> & _).
  by apply compute_payout_range.
Qed.

(** X14.  A year whose events satisfy no rule is still a key of the result,
    with value 0; in particular, with the empty rule set every year of a
    retained event maps to 0. *)
Theorem compute_payouts_zero_year (σ : gmap loc DataFrame) (l : loc) (df : DataFrame)
    (payout_rules : list PayoutRule) (y : Z) (r0 : Row) :
  σ !! l = Some df →
  r0 ∈ df_rows df → event_year parse_datetime r0 = Some y →
  (∀ r rule, r ∈ df_rows df → event_year parse_datetime r = Some y →
             rule ∈ payout_rules → ¬ rule_applies r rule) →
  ∃ res σ',
    compute_payouts parse_datetime l payout_rules σ = Ok (res, σ') ∧
    res !! y = Some 0%Q.
Proof.
  intros Hl Hr0 Hy0 Hnone. eexists _, _. split; [by apply compute_payouts_run|].
  destruct (proj2 (yearly_is_Some payout_rules df y)) as [v Hv]; [eauto|].
  rewrite Hv. f_equal.
  apply yearly_value in Hv as (r & Hr & Hy & -> & _).
  destruct (compute_payout_spec payout_rules r) as [(rule & Hin & Happ & _) | [_ ->]];
    [|done].
  exfalso. by apply (Hnone r rule).
Qed.

(** X15.  The result is the empty mapping exactly when every row of the
    input has a bad timestamp cell ([None], [NaT] or a string that the
    parser refuses), as for a frame without rows. *)
Theorem compute_payouts_empty (σ : gmap loc DataFrame) (l : loc) (df : DataFrame)
    (payout_rules : list PayoutRule) :
  σ !! l = Some df →
  ∃ res σ',
    compute_payouts parse_datetime l payout_rules σ = Ok (res, σ') ∧
    (res = ∅ ↔ Forall (bad_timestamp parse_datetime) (df_rows df)).
Proof.
  intros Hl. eexists _, _. split; [by apply compute_payouts_run|].
  rewrite Forall_forall. unfold bad_timestamp. split.
  - intros He r Hr.
    destruct (timestamp_of parse_datetime (row_time r)) as [t|] eqn:Et; [|done].
    destruct (proj2 (yearly_is_Some payout_rules df (ts_year t))) as [v Hv].
    { exists r. split; [done|].
      unfold event_year. by rewrite event_time_timestamp_of, Et. }
    rewrite He, lookup_empty in Hv. discriminate.
  - intros Hnone. apply map_empty. intros y.
    apply eq_None_not_Some. intros Hs.
    apply yearly_is_Some in Hs as (r & Hr & Hy).
    unfold event_year in Hy. rewrite event_time_timestamp_of, (Hnone r Hr) in Hy.
    discriminate.
Qed.

(** X16.  A call leaves nothing behind that a later call sees: called again
    on the same frame in the store the first call left, the function
    returns the same mapping. *)
Theorem compute_payouts_repeat (σ : gmap loc DataFrame) (l : loc) (df : DataFrame)
    (payout_rules : list PayoutRule) :
  σ !! l = Some df →
  ∃ res σ' σ'',
    compute_payouts parse_datetime l payout_rules σ = Ok (res, σ') ∧
    compute_payouts parse_datetime l payout_rules σ' = Ok (res, σ'').
Proof.
  intros Hl.
  destruct (compute_payouts_run_lookup σ l df payout_rules Hl) as (σ' & Hrun & Hl').
  destruct (compute_payouts_run_lookup σ' l df payout_rules Hl') as (σ'' & Hrun' & _).
  eauto.
Qed.

(** ** Order of the rules and of the events *)

(** X17.  The order of the rules and their repetitions do not matter: two
    rule lists with the same rules give the same years, each with values
    that are equal as numbers. *)
Theorem compute_payouts_rule_order (σ : gmap loc DataFrame) (l : loc) (df : DataFrame)
    (R1 R2 : list PayoutRule) :
  σ !! l = Some df →
  R1 ⊆ R2 → R2 ⊆ R1 →
  ∃ res1 σ1 res2 σ2,
    compute_payouts parse_datetime l R1 σ = Ok (res1, σ1) ∧
    compute_payouts parse_datetime l R2 σ = Ok (res2, σ2) ∧
    dom res1 = dom res2 ∧
    ∀ y v1 v2, res1 !! y = Some v1 → res2 !! y = Some v2 → (v1 == v2)%Q.
Proof.
  intros Hl H12 H21. eexists _, _, _, _.
  split; [by apply compute_payouts_run|]. split; [by apply compute_payouts_run|].
  split; [by apply yearly_dom|].
  intros y v1 v2 Hv1 Hv2. apply Qle_antisym.
  - eapply (yearly_le R1 R2 df df y); [|done|done].
    intros r Hr Hy. exists r. split; [done|]. split; [done|].
    apply compute_payout_mono; [done|]. intros rule Hin Hnin. destruct Hnin. by apply H21.
  - eapply (yearly_le R2 R1 df df y); [|done|done].
    intros r Hr Hy. exists r. split; [done|]. split; [done|].
    apply compute_payout_mono; [done|]. intros rule Hin Hnin. destruct Hnin. by apply H12.
Qed.

(** X18.  On frames whose [time] column has a datetime dtype already, so
    that no string is parsed, the order of the events does not matter: two
    such frames whose rows are a permutation of each other give the same
    years, each with values that are equal as numbers. *)
Theorem compute_payouts_event_order (σ1 σ2 : gmap loc DataFrame) (l1 l2 : loc)
    (df1 df2 : DataFrame) (payout_rules : list PayoutRule) :
  σ1 !! l1 = Some df1 → σ2 !! l2 = Some df2 →
  pd.is_datetime64_any_dtype (map row_time (df_rows df1)) = true →
  pd.is_datetime64_any_dtype (map row_time (df_rows df2)) = true →
  df_rows df1 ≡ₚ df_rows df2 →
  ∃ res1 σ1' res2 σ2',
    compute_payouts parse_datetime l1 payout_rules σ1 = Ok (res1, σ1') ∧
    compute_payouts parse_datetime l2 payout_rules σ2 = Ok (res2, σ2') ∧
    dom res1 = dom res2 ∧
    ∀ y v1 v2, res1 !! y = Some v1 → res2 !! y = Some v2 → (v1 == v2)%Q.
Proof.
  intros H1 H2 _ _ Hperm. eexists _, _, _, _.
  split; [by apply compute_payouts_run|]. split; [by apply compute_payouts_run|].
  assert (∀ r, r ∈ df_rows df1 ↔ r ∈ df_rows df2) as Hmem
    by (intros r; by rewrite Hperm).
  split.
  { apply yearly_dom. intros y.
    split; intros (r & Hr & Hy); exists r; (split; [by apply Hmem|done]). }
  intros y v1 v2 Hv1 Hv2. apply Qle_antisym.
  - eapply (yearly_le payout_rules payout_rules df1 df2 y); [|done|done].
    intros r Hr Hy. exists r. split; [by apply Hmem|]. split; [done|]. apply Qle_refl.
  - eapply (yearly_le payout_rules payout_rules df2 df1 y); [|done|done].
    intros r Hr Hy. exists r. split; [by apply Hmem|]. split; [done|]. apply Qle_refl.
Qed.

(** X19.  Two batches put end to end, on frames whose [time] column has a
    datetime dtype already, so that no string is parsed: a year is a key of
    the result when it is a key of the result of either batch, and its value
    is the greater of the two batches' values, as a number. *)
Theorem compute_payouts_concat (σ1 σ2 σ : gmap loc DataFrame) (l1 l2 l : loc)
    (df1 df2 df : DataFrame) (payout_rules : list PayoutRule) :
  σ1 !! l1 = Some df1 → σ2 !! l2 = Some df2 → σ !! l = Some df →
  pd.is_datetime64_any_dtype (map row_time (df_rows df1)) = true →
  pd.is_datetime64_any_dtype (map row_time (df_rows df2)) = true →
  df_rows df = df_rows df1 ++ df_rows df2 →
  ∃ res1 σ1' res2 σ2' res σ',
    compute_payouts parse_datetime l1 payout_rules σ1 = Ok (res1, σ1') ∧
    compute_payouts parse_datetime l2 payout_rules σ2 = Ok (res2, σ2') ∧
    compute_payouts parse_datetime l payout_rules σ = Ok (res, σ') ∧
    dom res = dom res1 ∪ dom res2 ∧
    ∀ y v, res !! y = Some v →
      (∀ v1, res1 !! y = Some v1 → (v1 <= v)%Q) ∧
      (∀ v2, res2 !! y = Some v2 → (v2 <= v)%Q) ∧
      ∃ v', (res1 !! y = Some v' ∨ res2 !! y = Some v') ∧ (v == v')%Q.
Proof.
  intros H1 H2 Hl _ _ Hrows. eexists _, _, _, _, _, _.
  split; [by apply compute_payouts_run|]. split; [by apply compute_payouts_run|].
  split; [by apply compute_payouts_run|].
  assert (∀ r, r ∈ df_rows df ↔ r ∈ df_rows df1 ∨ r ∈ df_rows df2) as Hmem
    by (intros r; by rewrite Hrows, elem_of_app).
  split.
  { apply set_eq. intros y. rewrite elem_of_union, !elem_of_dom, !yearly_is_Some.
    split.
    - intros (r & Hr & Hy). apply Hmem in Hr as [Hr | Hr]; [left | right]; eauto.
    - intros [(r & Hr & Hy) | (r & Hr & Hy)]; exists r; (split; [apply Hmem; auto | done]). }
  intros y v Hv.
  assert (∀ dfi vi, (∀ r, r ∈ df_rows dfi → r ∈ df_rows df) →
                    yearly parse_datetime payout_rules dfi !! y = Some vi → (vi <= v)%Q)
    as Hpart.
  { intros dfi vi Hsub Hvi.
    eapply (yearly_le payout_rules payout_rules dfi df y); [|done|done].
    intros r Hr Hy. exists r. split; [by apply Hsub|]. split; [done|]. apply Qle_refl. }
  split; [intros v1; apply Hpart; intros r Hr; apply Hmem; auto|].
  split; [intros v2; apply Hpart; intros r Hr; apply Hmem; auto|].
  pose proof Hv as Hv0.
  apply yearly_value in Hv as (r & Hr & Hy & Hvr & Hmax).
  assert (∀ dfi, r ∈ df_rows dfi → (∀ r', r' ∈ df_rows dfi → r' ∈ df_rows df) →
            ∃ v', yearly parse_datetime payout_rules dfi !! y = Some v' ∧ (v == v')%Q)
    as Hfrom.
  { intros dfi Hri Hsub.
    destruct (proj2 (yearly_is_Some payout_rules dfi y)) as [v' Hv']; [eauto|].
    exists v'. split; [done|]. apply Qle_antisym; [|by eapply Hpart].
    apply yearly_value in Hv' as (_ & _ & _ & _ & Hmax').
    rewrite Hvr. by apply Hmax'. }
  apply Hmem in Hr as [Hr | Hr].
  - destruct (Hfrom df1 Hr) as (v' & Hv' & Heq); [intros r' Hr'; apply Hmem; auto|].
    exists v'. auto.
  - destruct (Hfrom df2 Hr) as (v' & Hv' & Heq); [intros r' Hr'; apply Hmem; auto|].
    exists v'. auto.
Qed.

(** ** The pipeline *)

(** X20.  In exact arithmetic (payouts as rationals, no rounding), the
    burning cost of the result of [compute_payouts]: when every rule's
    payout lies between [lo] and [hi], with [lo <= 0 <= hi], the burning
    cost over any window with years lies between [lo] and [hi]. *)
Theorem burning_cost_of_payouts_range (σ : gmap loc DataFrame) (l : loc) (df : DataFrame)
    (payout_rules : list PayoutRule) (lo hi : Q) (start_year end_year : Z) :
  σ !! l = Some df →
  (∀ rule, rule ∈ payout_rules → (lo <= payout rule <= hi)%Q) →
  (lo <= 0 <= hi)%Q →
  start_year ≤ end_year →
  ∃ res σ' cost,
    compute_payouts parse_datetime l payout_rules σ = Ok (res, σ') ∧
    compute_burning_cost res start_year end_year = Ok cost ∧
    (lo <= cost <= hi)%Q.
Proof.
  intros Hl Hr H0 Hle.
  destruct (compute_burning_cost_run (yearly parse_datetime payout_rules df)
              start_year end_year Hle) as (cost & Hrun & Hcost).
  eexists _, _, cost. split; [by apply compute_payouts_run|]. split; [done|].
  eapply burning_cost_between; [done| |done].
  intros y _. unfold payout_of.
  destruct (yearly parse_datetime payout_rules df !! y) as [v|] eqn:Hv; [|done].
  apply yearly_value in Hv as (r & _ & _ & -> & _). by apply compute_payout_range.
Qed.

End payout_properties.

(** * The event identifier of [get_earthquake_data] *)

(** ** Python string methods *)

Module PyStr.

(** [s.lstrip(c)] for a single character [c] *)
Fixpoint lstrip (c : ascii) (s : string) : string :=
  match s with
  | EmptyString => EmptyString
  | String a s' => if decide (a = c) then lstrip c s' else s
  end.

(** [s.rstrip(c)] *)
Fixpoint rstrip (c : ascii) (s : string) : string :=
  match s with
  | EmptyString => EmptyString
  | String a s' =>
      match rstrip c s' with
      | EmptyString => if decide (a = c) then EmptyString else String a EmptyString
      | t => String a t
      end
  end.

(** [s.strip(c)]: the characters [c] at both ends are removed. *)
Definition strip (c : ascii) (s : string) : string := rstrip c (lstrip c s).

(** [s.split(sep)]: the fields between the separators, at least one. *)
Fixpoint split (sep : ascii) (s : string) : list string :=
  match s with
  | EmptyString => [EmptyString]
  | String a s' =>
      if decide (a = sep) then EmptyString :: split sep s'
      else
        match split sep s' with
        | w :: ws => String a w :: ws
        | [] => [String a EmptyString]
        end
  end.

End PyStr.

(** ** The identifier of a feature *)

(** Lines 117-124 of [usgs_api.py]: [ids] is [prop.get("ids")] and [id] is
    [prop.get("id")], each a string or [None]. *)
Definition event_id (ids id : option string) : option string :=
  match ids with
  | Some ((String _ _) as ids) =>
      let id_list := PyStr.split "," (PyStr.strip "," ids) in
      match id_list with
      | w :: _ => Some w
      | [] => None
      end
  | _ => id
  end.

(** A string of [n] commas. *)
Fixpoint commas (n : nat) : string :=
  match n with
  | O => EmptyString
  | S n' => String "," (commas n')
  end.

Definition comma_free (s : string) : Prop := ","%char ∉ String.list_ascii_of_string s.


Lemma append_nil (s : string) : EmptyString +:+ s = s.
Proof. reflexivity. Qed.

Lemma append_cons (a : ascii) (s t : string) : String a s +:+ t = String a (s +:+ t).
Proof. reflexivity. Qed.

Lemma lstrip_commas (n : nat) (a : ascii) (s : string) :
  a ≠ ","%char →
  PyStr.lstrip "," (commas n +:+ String a s) = String a s.
Proof.
  intros Ha. induction n as [|n IH]; cbn [commas].
  - rewrite append_nil. cbn [PyStr.lstrip]. by rewrite decide_False.
  - rewrite append_cons. cbn [PyStr.lstrip]. by rewrite decide_True.
Qed.

Lemma lstrip_all_commas (n : nat) : PyStr.lstrip "," (commas n) = EmptyString.
Proof.
  induction n as [|n IH]; [done|]. cbn [commas PyStr.lstrip]. by rewrite decide_True.
Qed.

Lemma rstrip_comma_free (w t : string) :
  comma_free w → PyStr.rstrip "," (w +:+ t) = w +:+ PyStr.rstrip "," t.
Proof.
  unfold comma_free. induction w as [|a w IH]; intros Hw; [done|].
  cbn in Hw. apply not_elem_of_cons in Hw as [Ha Hw].
  rewrite !append_cons. cbn [PyStr.rstrip]. rewrite (IH Hw).
  destruct (w +:+ PyStr.rstrip "," t); [|done].
  by rewrite decide_False by congruence.
Qed.

Lemma rstrip_field_end (t : string) :
  t = EmptyString ∨ (∃ t', t = String "," t') →
  PyStr.rstrip "," t = EmptyString ∨ ∃ u, PyStr.rstrip "," t = String "," u.
Proof.
  intros [-> | [t' ->]]; [by left|].
  cbn [PyStr.rstrip]. destruct (PyStr.rstrip "," t'); [left|right; eauto].
  by rewrite decide_True.
Qed.

Lemma split_field (w u : string) :
  comma_free w →
  u = EmptyString ∨ (∃ u', u = String "," u') →
  ∃ ws, PyStr.split "," (w +:+ u) = w :: ws.
Proof.
  unfold comma_free. induction w as [|a w IH]; intros Hw Hu.
  - rewrite append_nil. destruct Hu as [-> | [u' ->]]; cbn [PyStr.split]; [eauto|].
    rewrite decide_True by done. eauto.
  - cbn in Hw. apply not_elem_of_cons in Hw as [Ha Hw].
    destruct (IH Hw Hu) as [ws Hws].
    rewrite append_cons. cbn [PyStr.split]. rewrite decide_False by congruence.
    rewrite Hws. eauto.
Qed.


(** X22.  The first identifier of a comma-delimited list is extracted:
    for [ids] made of commas, then a non-empty identifier without comma,
    then nothing or a comma and anything, the identifier is returned. *)
Theorem event_id_first (n : nat) (w tail : string) (id : option string) :
  w ≠ EmptyString → comma_free w →
  tail = EmptyString ∨ (∃ t, tail = String "," t) →
  event_id (Some (commas n +:+ w +:+ tail)) id = Some w.
Proof.
  intros Hne Hw Htail. destruct w as [|a w]; [done|].
  assert (a ≠ ","%char) as Ha.
  { intros ->. apply Hw. cbn. left. }
  assert (PyStr.strip "," (commas n +:+ String a w +:+ tail)
          = String a w +:+ PyStr.rstrip "," tail) as Hstrip.
  { unfold PyStr.strip. rewrite append_cons.
    rewrite (lstrip_commas n a (w +:+ tail) Ha).
    rewrite <- append_cons. by apply rstrip_comma_free. }
  destruct (split_field (String a w) (PyStr.rstrip "," tail) Hw (rstrip_field_end _ Htail))
    as [ws Hws].
  unfold event_id.
  destruct (commas n +:+ String a w +:+ tail) as [|b rest] eqn:E.
  { destruct n; [rewrite append_nil, append_cons in E | cbn [commas] in E;
      rewrite append_cons in E]; discriminate E. }
  rewrite Hstrip, Hws. done.
Qed.

(** X23.  When [ids] holds commas only, the identifier is the empty string,
    not [None] and not [id]. *)
Theorem event_id_only_commas (n : nat) (id : option string) :
  event_id (Some (commas (S n))) id = Some EmptyString.
Proof.
  unfold event_id. cbn [commas]. unfold PyStr.strip.
  change (String "," (commas n)) with (commas (S n)).
  by rewrite lstrip_all_commas.
Qed.

Example event_id_usgs :
  event_id (Some ",us7000abcd,ci39812345,") (Some "us7000abcd") = Some "us7000abcd".
Proof. reflexivity. Qed.

Lemma event_id_first_witness :
  "us7000abcd" ≠ EmptyString ∧ comma_free "us7000abcd" ∧
  (",ci39812345," = EmptyString ∨ (∃ t, ",ci39812345," = String "," t)) ∧
  event_id (Some (commas 1 +:+ "us7000abcd" +:+ ",ci39812345,")) None = Some "us7000abcd".
Proof.
  assert ("us7000abcd" ≠ EmptyString) as Hne by discriminate.
  assert (comma_free "us7000abcd") as Hw.
  { unfold comma_free. cbn. intros Hin.
    repeat (apply elem_of_cons in Hin as [Hin | Hin]; [discriminate Hin|]).
    by apply not_elem_of_nil in Hin. }
  assert (",ci39812345," = EmptyString ∨ (∃ t, ",ci39812345," = String "," t)) as Ht
    by (right; eauto).
  split; [exact Hne|]. split; [exact Hw|]. split; [exact Ht|].
  exact (event_id_first 1 "us7000abcd" ",ci39812345," None Hne Hw Ht).
Defined.

(** * Concrete inputs for the further properties *)

Lemma example_payouts_range (y : Z) :
  2020 ≤ y ≤ 2022 → (0 <= payout_of example_payouts y <= 30)%Q.
Proof.
  intros Hy. assert (y = 2020 ∨ y = 2021 ∨ y = 2022) as [-> | [-> | ->]] by lia;
    split; by vm_compute.
Qed.

Lemma example_rules_range (rule : PayoutRule) :
  rule ∈ example_rules → (0 <= payout rule <= 25)%Q.
Proof.
  unfold example_rules. intros Hin.
  repeat (apply elem_of_cons in Hin as [-> | Hin]; [split; by vm_compute|]).
  by apply not_elem_of_nil in Hin.
Qed.

Lemma compute_burning_cost_bounds_witness :
  2020 ≤ 2022 ∧
  (∀ y, 2020 ≤ y ≤ 2022 → (0 <= payout_of example_payouts y <= 30)%Q) ∧
  ∃ cost, compute_burning_cost example_payouts 2020 2022 = Ok cost ∧ (0 <= cost <= 30)%Q.
Proof.
  assert (2020 ≤ 2022) as Hle by lia.
  split; [exact Hle|]. split; [exact example_payouts_range|].
  exact (compute_burning_cost_bounds example_payouts 2020 2022 0 30 Hle example_payouts_range).
Defined.

Lemma compute_burning_cost_le_witness :
  2020 ≤ 2022 ∧
  (∀ y, 2020 ≤ y ≤ 2022 → (payout_of ∅ y <= payout_of example_payouts y)%Q) ∧
  ∃ cost1 cost2,
    compute_burning_cost ∅ 2020 2022 = Ok cost1 ∧
    compute_burning_cost example_payouts 2020 2022 = Ok cost2 ∧
    (cost1 <= cost2)%Q.
Proof.
  assert (2020 ≤ 2022) as Hle by lia.
  assert (∀ y, 2020 ≤ y ≤ 2022 → (payout_of ∅ y <= payout_of example_payouts y)%Q) as Hp.
  { intros y Hy. unfold payout_of at 1. rewrite lookup_empty.
    by apply example_payouts_range. }
  split; [exact Hle|]. split; [exact Hp|].
  exact (compute_burning_cost_le ∅ example_payouts 2020 2022 Hle Hp).
Defined.

Lemma compute_burning_cost_window_only_witness :
  (∀ y, 2020 ≤ y ≤ 2022 → example_payouts !! y = <[1999 := 7%Q]> example_payouts !! y) ∧
  compute_burning_cost example_payouts 2020 2022
  = compute_burning_cost (<[1999 := 7%Q]> example_payouts) 2020 2022.
Proof.
  assert (∀ y, 2020 ≤ y ≤ 2022 →
               example_payouts !! y = <[1999 := 7%Q]> example_payouts !! y) as Hp.
  { intros y Hy. rewrite lookup_insert_ne by lia. reflexivity. }
  split; [exact Hp|].
  exact (compute_burning_cost_window_only example_payouts (<[1999 := 7%Q]> example_payouts)
           2020 2022 Hp).
Defined.

Lemma compute_burning_cost_split_witness :
  2020 ≤ 2020 ∧ 2020 < 2022 ∧
  ∃ cost cost1 cost2,
    compute_burning_cost example_payouts 2020 2022 = Ok cost ∧
    compute_burning_cost example_payouts 2020 2020 = Ok cost1 ∧
    compute_burning_cost example_payouts (2020 + 1) 2022 = Ok cost2 ∧
    (cost * inject_Z (2022 - 2020 + 1)
     == cost1 * inject_Z (2020 - 2020 + 1) + cost2 * inject_Z (2022 - 2020))%Q.
Proof.
  split; [lia|]. split; [lia|].
  apply (compute_burning_cost_split example_payouts 2020 2020 2022); lia.
Defined.

(** The example batch seen from elsewhere, with columns of an earlier run. *)
Definition example_frame_moved : DataFrame :=
  mkFrame [mkRow (Text "2020-02-11") 5.5 30 0 0;
           mkRow (Text "2020-09-30") 6.5 80 1 1;
           mkRow (Text "not a date") 7.0 10 2 2]%Q
          (Some [1; 2; 3]%Q) (Some [1999; 1999; 1999]).

(** Batches whose [time] column holds timestamps: the example batch with a
    missing time in its last row, the same with its first two rows
    exchanged, a batch of one event of 2021, and the two put end to end. *)
Definition dated_frame : DataFrame :=
  mkFrame [mkRow (Datetime (mkTimestamp 2020 2 11 0)) 5.5 30 35.1 139.2;
           mkRow (Datetime (mkTimestamp 2020 9 30 0)) 6.5 80 35.4 139.9;
           mkRow NaT 7.0 10 35.0 139.0]%Q None None.

Definition dated_frame_swapped : DataFrame :=
  mkFrame [mkRow (Datetime (mkTimestamp 2020 9 30 0)) 6.5 80 35.4 139.9;
           mkRow (Datetime (mkTimestamp 2020 2 11 0)) 5.5 30 35.1 139.2;
           mkRow NaT 7.0 10 35.0 139.0]%Q None None.

Definition dated_event_frame : DataFrame :=
  mkFrame [mkRow (Datetime (mkTimestamp 2021 3 5 0)) 6.0 10 35.0 139.0]%Q None None.

Definition dated_frame_concat : DataFrame :=
  mkFrame (df_rows dated_event_frame ++ df_rows dated_frame) None None.

Lemma compute_payouts_ignores_coordinates_witness :
  example_store !! 1%positive = Some example_frame ∧
  ({[1%positive := example_frame_moved]} : gmap loc DataFrame) !! 1%positive
    = Some example_frame_moved ∧
  Forall2 same_event (df_rows example_frame) (df_rows example_frame_moved) ∧
  ∃ res σ1' σ2',
    compute_payouts parse_iso_date 1%positive example_rules example_store = Ok (res, σ1') ∧
    compute_payouts parse_iso_date 1%positive example_rules
      {[1%positive := example_frame_moved]} = Ok (res, σ2').
Proof.
  assert (Forall2 same_event (df_rows example_frame) (df_rows example_frame_moved)) as H
    by (repeat constructor).
  split; [reflexivity|]. split; [reflexivity|]. split; [exact H|].
  exact (compute_payouts_ignores_coordinates parse_iso_date example_store
           {[1%positive := example_frame_moved]} 1%positive 1%positive
           example_frame example_frame_moved example_rules eq_refl eq_refl H).
Defined.

Lemma compute_payouts_value_range_witness :
  example_store !! 1%positive = Some example_frame ∧
  (∀ rule, rule ∈ example_rules → (0 <= payout rule <= 25)%Q) ∧
  (0 <= 0 <= 25)%Q ∧
  ∃ res σ',
    compute_payouts parse_iso_date 1%positive example_rules example_store = Ok (res, σ') ∧
    ∀ y v, res !! y = Some v → (0 <= v <= 25)%Q.
Proof.
  assert (0 <= 0 <= 25)%Q as H0 by (split; by vm_compute).
  split; [reflexivity|]. split; [exact example_rules_range|]. split; [exact H0|].
  exact (compute_payouts_value_range parse_iso_date example_store 1%positive example_frame
           example_rules 0 25 eq_refl example_rules_range H0).
Defined.

Lemma compute_payouts_zero_year_witness :
  example_store !! 1%positive = Some example_frame ∧
  mkRow (Text "2020-02-11") 5.5 30 35.1 139.2 ∈ df_rows example_frame ∧
  event_year parse_iso_date (mkRow (Text "2020-02-11") 5.5 30 35.1 139.2) = Some 2020 ∧
  (∀ r rule, r ∈ df_rows example_frame → event_year parse_iso_date r = Some 2020 →
             rule ∈ [] → ¬ rule_applies r rule) ∧
  ∃ res σ',
    compute_payouts parse_iso_date 1%positive [] example_store = Ok (res, σ') ∧
    res !! 2020 = Some 0%Q.
Proof.
  assert (mkRow (Text "2020-02-11") 5.5 30 35.1 139.2 ∈ df_rows example_frame) as Hr by left.
  assert (event_year parse_iso_date (mkRow (Text "2020-02-11") 5.5 30 35.1 139.2)
          = Some 2020) as Hy by reflexivity.
  assert (∀ r rule, r ∈ df_rows example_frame → event_year parse_iso_date r = Some 2020 →
                    rule ∈ [] → ¬ rule_applies r rule) as Hnone.
  { intros r rule _ _ Hin. by apply not_elem_of_nil in Hin. }
  split; [reflexivity|]. split; [exact Hr|]. split; [exact Hy|]. split; [exact Hnone|].
  exact (compute_payouts_zero_year parse_iso_date example_store 1%positive example_frame
           [] 2020 _ eq_refl Hr Hy Hnone).
Defined.

Lemma compute_payouts_empty_witness :
  example_store !! 1%positive = Some example_frame ∧
  ∃ res σ',
    compute_payouts parse_iso_date 1%positive example_rules example_store = Ok (res, σ') ∧
    (res = ∅ ↔ Forall (bad_timestamp parse_iso_date) (df_rows example_frame)).
Proof.
  split; [reflexivity|].
  apply (compute_payouts_empty parse_iso_date example_store 1%positive example_frame).
  reflexivity.
Defined.

Lemma compute_payouts_repeat_witness :
  example_store !! 1%positive = Some example_frame ∧
  ∃ res σ' σ'',
    compute_payouts parse_iso_date 1%positive example_rules example_store = Ok (res, σ') ∧
    compute_payouts parse_iso_date 1%positive example_rules σ' = Ok (res, σ'').
Proof.
  split; [reflexivity|].
  apply (compute_payouts_repeat parse_iso_date example_store 1%positive example_frame).
  reflexivity.
Defined.

Lemma compute_payouts_rule_order_witness :
  example_store !! 1%positive = Some example_frame ∧
  example_rules ⊆ reverse example_rules ∧ reverse example_rules ⊆ example_rules ∧
  ∃ res1 σ1 res2 σ2,
    compute_payouts parse_iso_date 1%positive example_rules example_store = Ok (res1, σ1) ∧
    compute_payouts parse_iso_date 1%positive (reverse example_rules) example_store
      = Ok (res2, σ2) ∧
    dom res1 = dom res2 ∧
    ∀ y v1 v2, res1 !! y = Some v1 → res2 !! y = Some v2 → (v1 == v2)%Q.
Proof.
  assert (example_rules ⊆ reverse example_rules) as H12
    by (intros rule Hin; by apply elem_of_reverse).
  assert (reverse example_rules ⊆ example_rules) as H21
    by (intros rule Hin; by apply elem_of_reverse in Hin).
  split; [reflexivity|]. split; [exact H12|]. split; [exact H21|].
  exact (compute_payouts_rule_order parse_iso_date example_store 1%positive example_frame
           example_rules (reverse example_rules) eq_refl H12 H21).
Defined.

Lemma compute_payouts_event_order_witness :
  ({[1%positive := dated_frame]} : gmap loc DataFrame) !! 1%positive = Some dated_frame ∧
  ({[1%positive := dated_frame_swapped]} : gmap loc DataFrame) !! 1%positive
    = Some dated_frame_swapped ∧
  pd.is_datetime64_any_dtype (map row_time (df_rows dated_frame)) = true ∧
  pd.is_datetime64_any_dtype (map row_time (df_rows dated_frame_swapped)) = true ∧
  df_rows dated_frame ≡ₚ df_rows dated_frame_swapped ∧
  ∃ res1 σ1' res2 σ2',
    compute_payouts parse_iso_date 1%positive example_rules {[1%positive := dated_frame]}
      = Ok (res1, σ1') ∧
    compute_payouts parse_iso_date 1%positive example_rules
      {[1%positive := dated_frame_swapped]} = Ok (res2, σ2') ∧
    dom res1 = dom res2 ∧
    ∀ y v1 v2, res1 !! y = Some v1 → res2 !! y = Some v2 → (v1 == v2)%Q.
Proof.
  assert (df_rows dated_frame ≡ₚ df_rows dated_frame_swapped) as H by apply perm_swap.
  split; [reflexivity|]. split; [reflexivity|]. split; [reflexivity|].
  split; [reflexivity|]. split; [exact H|].
  exact (compute_payouts_event_order parse_iso_date {[1%positive := dated_frame]}
           {[1%positive := dated_frame_swapped]} 1%positive 1%positive
           dated_frame dated_frame_swapped example_rules eq_refl eq_refl eq_refl eq_refl H).
Defined.

Lemma compute_payouts_concat_witness :
  ({[1%positive := dated_event_frame]} : gmap loc DataFrame) !! 1%positive
    = Some dated_event_frame ∧
  ({[1%positive := dated_frame]} : gmap loc DataFrame) !! 1%positive = Some dated_frame ∧
  ({[1%positive := dated_frame_concat]} : gmap loc DataFrame) !! 1%positive
    = Some dated_frame_concat ∧
  pd.is_datetime64_any_dtype (map row_time (df_rows dated_event_frame)) = true ∧
  pd.is_datetime64_any_dtype (map row_time (df_rows dated_frame)) = true ∧
  df_rows dated_frame_concat = df_rows dated_event_frame ++ df_rows dated_frame ∧
  ∃ res1 σ1' res2 σ2' res σ',
    compute_payouts parse_iso_date 1%positive example_rules
      {[1%positive := dated_event_frame]} = Ok (res1, σ1') ∧
    compute_payouts parse_iso_date 1%positive example_rules
      {[1%positive := dated_frame]} = Ok (res2, σ2') ∧
    compute_payouts parse_iso_date 1%positive example_rules
      {[1%positive := dated_frame_concat]} = Ok (res, σ') ∧
    dom res = dom res1 ∪ dom res2 ∧
    ∀ y v, res !! y = Some v →
      (∀ v1, res1 !! y = Some v1 → (v1 <= v)%Q) ∧
      (∀ v2, res2 !! y = Some v2 → (v2 <= v)%Q) ∧
      ∃ v', (res1 !! y = Some v' ∨ res2 !! y = Some v') ∧ (v == v')%Q.
Proof.
  split; [reflexivity|]. split; [reflexivity|]. split; [reflexivity|].
  split; [reflexivity|]. split; [reflexivity|]. split; [reflexivity|].
  exact (compute_payouts_concat parse_iso_date {[1%positive := dated_event_frame]}
           {[1%positive := dated_frame]}
           {[1%positive := dated_frame_concat]} 1%positive 1%positive 1%positive
           dated_event_frame dated_frame dated_frame_concat example_rules
           eq_refl eq_refl eq_refl eq_refl eq_refl eq_refl).
Defined.

Lemma burning_cost_of_payouts_range_witness :
  example_store !! 1%positive = Some example_frame ∧
  (∀ rule, rule ∈ example_rules → (0 <= payout rule <= 25)%Q) ∧
  (0 <= 0 <= 25)%Q ∧ 2019 ≤ 2021 ∧
  ∃ res σ' cost,
    compute_payouts parse_iso_date 1%positive example_rules example_store = Ok (res, σ') ∧
    compute_burning_cost res 2019 2021 = Ok cost ∧
    (0 <= cost <= 25)%Q.
Proof.
  assert (0 <= 0 <= 25)%Q as H0 by (split; by vm_compute).
  assert (2019 ≤ 2021) as Hle by lia.
  split; [reflexivity|]. split; [exact example_rules_range|]. split; [exact H0|].
  split; [exact Hle|].
  exact (burning_cost_of_payouts_range parse_iso_date example_store 1%positive example_frame
           example_rules 0 25 2019 2021 eq_refl example_rules_range H0 Hle).
Defined.

(** * Longitudes a full turn apart *)

Section haversine_periodicity.
Local Open Scope R_scope.
Variable float_of_string : string → option R.

Lemma haversine_km_full_turn (lat_point lon_point lat lon : R) :
  haversine_km lat_point lon_point lat (lon + 360) = haversine_km lat_point lon_point lat lon.
Proof.
  unfold haversine_km. cbv zeta.
  replace ((lon_point * PI / 180 - (lon + 360) * PI / 180) / 2)
    with (- (PI - (lon_point * PI / 180 - lon * PI / 180) / 2)) by lra.
  by rewrite sin_neg, <- Rsqr_neg, sin_PI_x.
Qed.

Lemma broadcast_map_r (f : R → R → R) (g : R → R) (xs ys : list R) :
  (∀ x y, f x (g y) = f x y) →
  np.broadcast f xs (map g ys) = np.broadcast f xs ys.
Proof.
  intros Hf. unfold np.broadcast. rewrite length_map.
  case_decide.
  - f_equal. apply list_eq. intros i. rewrite !lookup_zip_with, list_lookup_fmap.
    destruct (xs !! i); [|done]. destruct (ys !! i); [|done]. cbn. by rewrite Hf.
  - destruct xs as [|x [|x' xs]]; destruct ys as [|y [|y' ys]]; try done; cbn [map].
    + by rewrite !Hf, map_map, (map_ext _ (f x) (λ y, Hf x y)).
    + by rewrite !Hf, (map_ext _ (λ x0, f x0 y) (λ x0, Hf x0 y)).
Qed.

(** X24.  Longitudes are angles: adding a full turn of 360 degrees to every
    longitude changes no distance and no error. *)
Theorem get_haversine_distance_full_turn (lats lons : list R) (lat_point lon_point : R) :
  get_haversine_distance float_of_string (Num <$> lats)
    (Num <$> map (λ lon, lon + 360) lons) lat_point lon_point
  = get_haversine_distance float_of_string (Num <$> lats) (Num <$> lons)
      lat_point lon_point.
Proof.
  rewrite !get_haversine_distance_broadcast, !asarray_float64_Num.
  cbn [mbind result_mbind result_bind].
  apply broadcast_map_r. intros lat lon. apply haversine_km_full_turn.
Qed.

End haversine_periodicity.

(** * Queries for several locations *)

(** ** Frames of catalog records *)

(** A value of a record of the catalog. *)
Inductive Value : Type :=
| VNum (x : Q)
| VText (s : string)
| VNone.

(** A frame by its rows, each a mapping from column names to values; a
    column a row has no value for is absent from the row. *)
Definition Table : Type := list (gmap string Value).

(** What one call of [get_earthquake_data] did: it returned a frame, or
    raised an exception whose [str] is [message]. *)
Inductive Outcome : Type :=
| Fetched (earthquake_data : Table)
| Failed (message : string).

(** [df[name] = v] for a scalar [v]. *)
Definition set_column (name : string) (v : Value) (df : Table) : Table :=
  map (insert name v) df.

(** [pd.concat(frames, ignore_index=True)]: no frame at all is an error. *)
Definition pd_concat (frames : list Table) : result Table :=
  match frames with
  | [] => Raise ValueError
  | _ => Ok (mjoin frames)
  end.

(** ** [get_earthquake_data_for_multiple_locations] *)

(** The inner coroutine [fetch(loc)], given the outcome of its call. *)
Definition fetch (loc : Q * Q) (outcome : Outcome) : Table :=
  match outcome with
  | Fetched earthquake_data =>
      let earthquake_data := set_column "query_latitude" (VNum loc.1) earthquake_data in
      let earthquake_data := set_column "query_longitude" (VNum loc.2) earthquake_data in
      earthquake_data
  | Failed exc =>
      [ {[ "error" := VText exc;
           "query_latitude" := VNum loc.1;
           "query_longitude" := VNum loc.2 ]} ]
  end.

(** What awaiting the coroutine gives: it returns or raises, or it never
    completes. *)
Inductive Completion : Type :=
| Done (r : result Table)
| Never.

(** [asyncio.Semaphore(value)]: a negative value is refused. *)
Definition Semaphore (value : Z) : result Z :=
  if value <? 0 then Raise ValueError else Ok value.

(** [await asyncio.gather] on the tasks, every task entering [async with
    semaphore] first: the frames come in the order of the tasks; without
    tasks the result is the empty list; with tasks and a semaphore of value
    0 no task is ever let in, and the wait has no end.  A positive value
    limits how many calls run at a time and has no part in the result. *)
Definition gather (semaphore : Z) (tasks : list Table) : option (list Table) :=
  match tasks with
  | [] => Some []
  | _ :: _ => if semaphore =? 0 then None else Some tasks
  end.

(** The function on the assets, each with the outcome of its call of
    [get_earthquake_data]: a frame, or an exception that [except Exception]
    catches. *)
Definition get_earthquake_data_for_multiple_locations
    (calls : list ((Q * Q) * Outcome)) (max_concurrent_requests : Z)
  : Completion :=
  match Semaphore max_concurrent_requests with
  | Raise e => Done (Raise e)
  | Ok semaphore =>
      let tasks := map (λ call, fetch call.1 call.2) calls in
      match gather semaphore tasks with
      | Some results => Done (pd_concat results)
      | None => Never
      end
  end.

(** The number of rows a call contributes. *)
Definition rows_of (outcome : Outcome) : nat :=
  match outcome with
  | Fetched earthquake_data => length earthquake_data
  | Failed _ => 1
  end.

Lemma fetch_length (loc : Q * Q) (outcome : Outcome) :
  length (fetch loc outcome) = rows_of outcome.
Proof. destruct outcome; [|done]. unfold fetch, set_column. by rewrite !length_map. Qed.

Lemma fetch_query (loc : Q * Q) (outcome : Outcome) (row : gmap string Value) :
  row ∈ fetch loc outcome →
  row !! "query_latitude" = Some (VNum loc.1) ∧
  row !! "query_longitude" = Some (VNum loc.2).
Proof.
  destruct outcome as [df|message]; unfold fetch, set_column.
  - intros Hin. apply list_elem_of_fmap in Hin as (row' & -> & Hin).
    apply list_elem_of_fmap in Hin as (row'' & -> & _).
    split; [by rewrite lookup_insert_ne, lookup_insert_eq | by rewrite lookup_insert_eq].
  - intros Hin. apply list_elem_of_singleton in Hin as ->.
    split; by simplify_map_eq.
Qed.

Lemma multiple_locations_Ok (calls : list ((Q * Q) * Outcome))
    (max_concurrent_requests : Z) (df : Table) :
  get_earthquake_data_for_multiple_locations calls max_concurrent_requests = Done (Ok df) →
  df = mjoin (map (λ call, fetch call.1 call.2) calls).
Proof.
  unfold get_earthquake_data_for_multiple_locations, Semaphore, gather, pd_concat.
  destruct (max_concurrent_requests <? 0); [done|].
  destruct (map _ calls) as [|t ts]; [done|].
  destruct (max_concurrent_requests =? 0); [done|]. by intros [= <-].
Qed.

Lemma multiple_locations_run (calls : list ((Q * Q) * Outcome))
    (max_concurrent_requests : Z) :
  0 < max_concurrent_requests →
  get_earthquake_data_for_multiple_locations calls max_concurrent_requests
  = Done (pd_concat (map (λ call, fetch call.1 call.2) calls)).
Proof.
  intros Hpos.
  unfold get_earthquake_data_for_multiple_locations, Semaphore, gather.
  destruct (Z.ltb_spec max_concurrent_requests 0) as [?|_]; [lia|].
  destruct (map _ calls) as [|t ts]; [done|].
  destruct (Z.eqb_spec max_concurrent_requests 0) as [?|_]; [lia|]. done.
Qed.

(** X25.  The outcome of the call by its bound and its locations.  With a
    positive bound a failed query never fails the batch: the call raises
    only when there is no location at all ([ValueError], nothing to
    concatenate) and returns a frame as soon as there is one, whatever the
    outcomes of the queries.  A negative bound raises [ValueError] before
    any query.  With the bound 0 the call raises the same [ValueError] when
    there is no location, and never completes when there is one. *)
Theorem multiple_locations_raises_iff (calls : list ((Q * Q) * Outcome))
    (max_concurrent_requests : Z) :
  (0 < max_concurrent_requests →
   ((∃ e, get_earthquake_data_for_multiple_locations calls max_concurrent_requests
          = Done (Raise e)) ↔ calls = []) ∧
   (calls ≠ [] →
    ∃ df, get_earthquake_data_for_multiple_locations calls max_concurrent_requests
          = Done (Ok df))) ∧
  (max_concurrent_requests < 0 →
   get_earthquake_data_for_multiple_locations calls max_concurrent_requests
   = Done (Raise ValueError)) ∧
  (0 ≤ max_concurrent_requests → calls = [] →
   get_earthquake_data_for_multiple_locations calls max_concurrent_requests
   = Done (Raise ValueError)) ∧
  (max_concurrent_requests = 0 → calls ≠ [] →
   get_earthquake_data_for_multiple_locations calls max_concurrent_requests = Never).
Proof.
  split; [|split; [|split]].
  - intros Hpos. rewrite multiple_locations_run by done. unfold pd_concat.
    destruct calls as [|call calls]; cbn [map].
    + split; [|done]. split; [done|eauto].
    + split; [|eauto]. split; [|done]. intros [e He]. discriminate He.
  - intros Hneg. unfold get_earthquake_data_for_multiple_locations, Semaphore.
    destruct (Z.ltb_spec max_concurrent_requests 0) as [_|?]; [done|lia].
  - intros Hnn ->. unfold get_earthquake_data_for_multiple_locations, Semaphore.
    destruct (Z.ltb_spec max_concurrent_requests 0) as [?|_]; [lia|done].
  - intros -> Hne. destruct calls as [|call calls]; done.
Qed.

(** X26.  Every row of the returned frame holds, in the columns
    [query_latitude] and [query_longitude], the coordinates of one of the
    locations asked for. *)
Theorem multiple_locations_query_columns (calls : list ((Q * Q) * Outcome))
    (max_concurrent_requests : Z) (df : Table) (row : gmap string Value) :
  get_earthquake_data_for_multiple_locations calls max_concurrent_requests = Done (Ok df) →
  row ∈ df →
  ∃ call, call ∈ calls ∧
          row !! "query_latitude" = Some (VNum call.1.1) ∧
          row !! "query_longitude" = Some (VNum call.1.2).
Proof.
  intros Hrun Hin. apply multiple_locations_Ok in Hrun as ->.
  apply list_elem_of_join in Hin as (t' & Hrow & Ht').
  apply list_elem_of_fmap in Ht' as (call & -> & Hcall).
  exists call. split; [done|]. by apply (fetch_query call.1 call.2).
Qed.

(** X27.  The returned frame has one row per record of each query that
    succeeded and exactly one row per query that failed: a location
    without any earthquake leaves no row. *)
Theorem multiple_locations_length (calls : list ((Q * Q) * Outcome))
    (max_concurrent_requests : Z) (df : Table) :
  get_earthquake_data_for_multiple_locations calls max_concurrent_requests = Done (Ok df) →
  length df = sum_list (map (λ call, rows_of call.2) calls).
Proof.
  intros Hrun. apply multiple_locations_Ok in Hrun as ->.
  rewrite length_join. f_equal.
  induction calls as [|call calls IH]; [done|].
  cbn [map fmap list_fmap]. by rewrite fetch_length, <- IH.
Qed.

(** X28.  With a positive bound, the error row of a failed query is in the
    returned frame: it holds the exception's text and the coordinates of
    the location. *)
Theorem multiple_locations_error_row (calls : list ((Q * Q) * Outcome))
    (max_concurrent_requests : Z) (loc : Q * Q) (message : string) :
  0 < max_concurrent_requests →
  (loc, Failed message) ∈ calls →
  ∃ df, get_earthquake_data_for_multiple_locations calls max_concurrent_requests
        = Done (Ok df) ∧
        ({[ "error" := VText message;
            "query_latitude" := VNum loc.1;
            "query_longitude" := VNum loc.2 ]} : gmap string Value) ∈ df.
Proof.
  intros Hpos Hin.
  assert (∃ df, get_earthquake_data_for_multiple_locations calls max_concurrent_requests
                = Done (Ok df)) as [df Hrun].
  { rewrite multiple_locations_run by done. unfold pd_concat.
    destruct calls as [|call calls]; [by apply not_elem_of_nil in Hin|]. cbn [map]. eauto. }
  exists df. split; [done|]. apply multiple_locations_Ok in Hrun as ->.
  apply list_elem_of_join. exists (fetch loc (Failed message)).
  split; [apply list_elem_of_singleton; reflexivity|].
  apply list_elem_of_fmap. by exists (loc, Failed message).
Qed.

(** Two locations: Tokyo with one record, and a query that timed out. *)
Definition example_calls : list ((Q * Q) * Outcome) :=
  [ ((35.7, 139.7)%Q, Fetched [ {[ "mag" := VNum 5.5%Q; "place" := VText "Honshu" ]} ]);
    ((48.9, 2.3)%Q, Failed "timed out") ].

Definition example_table : Table :=
  [ {[ "mag" := VNum 5.5%Q; "place" := VText "Honshu";
       "query_latitude" := VNum 35.7%Q; "query_longitude" := VNum 139.7%Q ]};
    {[ "error" := VText "timed out";
       "query_latitude" := VNum 48.9%Q; "query_longitude" := VNum 2.3%Q ]} ].

Lemma example_calls_run :
  get_earthquake_data_for_multiple_locations example_calls 50 = Done (Ok example_table).
Proof.
  vm_compute. reflexivity.
Qed.

Lemma multiple_locations_query_columns_witness :
  get_earthquake_data_for_multiple_locations example_calls 50 = Done (Ok example_table) ∧
  ({[ "error" := VText "timed out";
      "query_latitude" := VNum 48.9%Q; "query_longitude" := VNum 2.3%Q ]}
     : gmap string Value) ∈ example_table ∧
  ∃ call, call ∈ example_calls ∧
          ({[ "error" := VText "timed out"; "query_latitude" := VNum 48.9%Q;
              "query_longitude" := VNum 2.3%Q ]} : gmap string Value)
            !! "query_latitude" = Some (VNum call.1.1) ∧
          ({[ "error" := VText "timed out"; "query_latitude" := VNum 48.9%Q;
              "query_longitude" := VNum 2.3%Q ]} : gmap string Value)
            !! "query_longitude" = Some (VNum call.1.2).
Proof.
  assert (({[ "error" := VText "timed out";
      "query_latitude" := VNum 48.9%Q; "query_longitude" := VNum 2.3%Q ]}
     : gmap string Value) ∈ example_table) as Hin by (right; left).
  split; [exact example_calls_run|]. split; [exact Hin|].
  exact (multiple_locations_query_columns example_calls 50 example_table _
           example_calls_run Hin).
Defined.

Lemma multiple_locations_length_witness :
  get_earthquake_data_for_multiple_locations example_calls 50 = Done (Ok example_table) ∧
  length example_table = sum_list (map (λ call, rows_of call.2) example_calls).
Proof.
  split; [exact example_calls_run|].
  exact (multiple_locations_length example_calls 50 example_table example_calls_run).
Defined.

Lemma multiple_locations_error_row_witness :
  0 < 50 ∧
  ((48.9, 2.3)%Q, Failed "timed out") ∈ example_calls ∧
  ∃ df, get_earthquake_data_for_multiple_locations example_calls 50 = Done (Ok df) ∧
        ({[ "error" := VText "timed out";
            "query_latitude" := VNum (48.9, 2.3)%Q.1;
            "query_longitude" := VNum (48.9, 2.3)%Q.2 ]} : gmap string Value) ∈ df.
Proof.
  assert (((48.9, 2.3)%Q, Failed "timed out") ∈ example_calls) as Hin by (right; left).
  split; [reflexivity|]. split; [exact Hin|].
  exact (multiple_locations_error_row example_calls 50 (48.9, 2.3)%Q "timed out"
           eq_refl Hin).
Defined.

(** * The haversine distance in binary64 arithmetic *)

(** The model over the real numbers above says what the formula computes.
    What happens to a float that is no real number (NaN, an infinity), to
    [None], and to a result of rounding is said here, with Python's floats
    as IEEE 754 binary64 numbers. *)

Module F64.
Import PrimFloat FloatOps FloatAxioms SpecFloat.
Local Open Scope float_scope.

(** An item of a coordinate sequence: a float, a string, or [None]. *)
Inductive Item : Type :=
| Num (x : float)
| Str (s : string)
| PyNone.

Definition EARTH_RADIUS : float := 6378.

(** [x ** 2] on a float array, which numpy computes as [x * x]. *)
Definition square (x : float) : float := x * x.

(** A binary operation on two one-dimensional arrays, with broadcasting. *)
Definition broadcast (f : float → float → float) (xs ys : list float)
  : result (list float) :=
  if decide (length xs = length ys) then Ok (zip_with f xs ys)
  else
    match xs, ys with
    | [x], _ => Ok (map (f x) ys)
    | _, [y] => Ok (map (λ x, f x y) xs)
    | _, _ => Raise ValueError
    end.

Section get_haversine_distance.
(** The functions of Python and numpy, which are not part of the
    repository: the conversion of a string to a float ([None] when the
    string is refused), and [np.sin], [np.cos], [np.radians] and
    [np.arctan2] on floats. *)
Variable float_of_string : string → option float.
Variables np_sin np_cos np_radians : float → float.
Variable np_arctan2 : float → float → float.

(** The conversion of one item by [np.asarray(seq, dtype=np.float64)]: a
    string goes through the conversion of strings, which raises on a string
    that denotes no float; [None] becomes NaN, and nothing is raised. *)
Definition cast_float64 (c : Item) : result float :=
  match c with
  | Num x => Ok x
  | Str s =>
      match float_of_string s with
      | Some x => Ok x
      | None => Raise ValueError
      end
  | PyNone => Ok nan
  end.

Definition asarray_float64 (seq : list Item) : result (list float) :=
  result_mapM cast_float64 seq.

(** Line 54: [c = 2.0 * np.arctan2(np.sqrt(a), np.sqrt(1.0 - a))], on the
    value [a] of line 53 as it is. *)
Definition central_angle (a : float) : float :=
  2 * np_arctan2 (sqrt a) (sqrt (1 - a)).

Definition get_haversine_distance (lat_series lon_series : list Item)
    (lat_point lon_point : float) : result (list float) :=
  lat_arr ← asarray_float64 lat_series;
  lon_arr ← asarray_float64 lon_series;
  let lat1 := map np_radians lat_arr in
  let lon1 := map np_radians lon_arr in
  let lat2 := np_radians lat_point in
  let lon2 := np_radians lon_point in
  let dlat := map (λ x, lat2 - x) lat1 in
  let dlon := map (λ x, lon2 - x) lon1 in
  let sin2_dlat := map (λ x, square (np_sin (x / 2))) dlat in
  let cos_cos := map (λ x, np_cos x * np_cos lat2) lat1 in
  let sin2_dlon := map (λ x, square (np_sin (x / 2))) dlon in
  cos_cos_sin2 ← broadcast mul cos_cos sin2_dlon;
  a ← broadcast add sin2_dlat cos_cos_sin2;
  let c := map central_angle a in
  let distances := map (λ c, EARTH_RADIUS * c) c in
  Ok distances.

(** ** Conversion of the items *)

Lemma asarray_float64_total (seq : list Item) :
  (∃ xs, asarray_float64 seq = Ok xs) ∨ asarray_float64 seq = Raise ValueError.
Proof.
  unfold asarray_float64. induction seq as [|c seq IH]; cbn; [eauto|].
  destruct c as [x|s|]; cbn.
  - destruct IH as [[xs ->] | ->]; cbn; eauto.
  - destruct (float_of_string s); cbn; [|by right].
    destruct IH as [[xs ->] | ->]; cbn; eauto.
  - destruct IH as [[xs ->] | ->]; cbn; eauto.
Qed.

Lemma asarray_float64_raises (seq : list Item) (s : string) :
  Str s ∈ seq → float_of_string s = None →
  asarray_float64 seq = Raise ValueError.
Proof.
  unfold asarray_float64. intros Hin Hs.
  induction seq as [|c seq IH]; [by apply not_elem_of_nil in Hin|].
  apply elem_of_cons in Hin as [<- | Hin]; cbn.
  - by rewrite Hs.
  - rewrite (IH Hin).
    destruct c as [x|s'|]; cbn; [done| |done].
    by destruct (float_of_string s').
Qed.

End get_haversine_distance.

(** ** Facts of binary64 arithmetic *)




(** ** Claims on the binary64 run *)

Section claims.
Variable float_of_string : string → option float.
Variables np_sin np_cos np_radians : float → float.
Variable np_arctan2 : float → float → float.





(** C7, amended.  A string that the conversion to a float refuses, anywhere
    in the latitudes or in the longitudes, makes the call raise
    [ValueError]; no array is returned. *)
Theorem get_haversine_distance_refused_string (lat_series lon_series : list Item)
    (lat_point lon_point : float) (s : string) :
  Str s ∈ lat_series ++ lon_series →
  float_of_string s = None →
  get_haversine_distance float_of_string np_sin np_cos np_radians np_arctan2
    lat_series lon_series lat_point lon_point = Raise ValueError.
Proof.
  intros Hin Hs. unfold get_haversine_distance.
  apply elem_of_app in Hin as [Hin | Hin].
  - by rewrite (asarray_float64_raises _ _ _ Hin Hs).
  - destruct (asarray_float64_total float_of_string lat_series) as [[xs ->] | ->]; [|done].
    cbn [mbind result_mbind result_bind].
    by rewrite (asarray_float64_raises _ _ _ Hin Hs).
Qed.

End claims.

(** ** No clamp before the roots *)



(** ** [None] among the coordinates *)

(** C7, the claim as stated fails: [None], which Python's [float] refuses,
    raises nothing in [np.asarray]; it becomes NaN, and the call returns an
    array of distances, whatever the library functions are. *)
Lemma none_becomes_nan_counterexample :
  (∀ float_of_string, asarray_float64 float_of_string [PyNone] = Ok [nan]) ∧
  (∀ float_of_string np_sin np_cos np_radians np_arctan2,
     ∃ distances,
       get_haversine_distance float_of_string np_sin np_cos np_radians np_arctan2
         [PyNone] [Num 0] 0 0 = Ok distances ∧
       length distances = 1%nat).
Proof.
  split; [reflexivity|].
  intros float_of_string np_sin np_cos np_radians np_arctan2.
  eexists. split; reflexivity.
Qed.

(** ** Concrete runs *)

(** Stand-ins for the library in the concrete runs: a conversion that reads
    the words [nan] and [inf] only, the conversion of degrees by the float
    nearest to pi/180, and the approximations of sine, cosine and arctangent
    for small angles, which are exact at the arguments 0 and (0, 1). *)
Definition float_of_word (s : string) : option float :=
  if String.eqb s "nan" then Some nan
  else if String.eqb s "inf" then Some infinity
  else None.

Definition degrees_to_radians (x : float) : float := x * 0x1.1df46a2529d39p-6.

Definition small_angle_sin (x : float) : float := x.

Definition small_angle_cos (x : float) : float := 1 - x * x / 2.

Definition small_angle_arctan2 (y x : float) : float := y / x.

(** A word that denotes NaN, and [None], are converted without an error. *)
Example asarray_float64_nan :
  asarray_float64 float_of_word [Str "nan"; PyNone; Num 1] = Ok [nan; nan; 1].
Proof. reflexivity. Qed.


(** The strings of the repository's test of invalid input. *)
Lemma get_haversine_distance_refused_string_witness :
  Str "a" ∈ [Str "a"; Str "b"] ++ [Str "c"; Str "d"] ∧
  float_of_word "a" = None ∧
  get_haversine_distance float_of_word small_angle_sin small_angle_cos degrees_to_radians
    small_angle_arctan2 [Str "a"; Str "b"] [Str "c"; Str "d"] 0 0 = Raise ValueError.
Proof.
  assert (Str "a" ∈ [Str "a"; Str "b"] ++ [Str "c"; Str "d"]) as Hin by left.
  split; [exact Hin|]. split; [reflexivity|].
  exact (get_haversine_distance_refused_string float_of_word small_angle_sin
           small_angle_cos degrees_to_radians small_angle_arctan2
           [Str "a"; Str "b"] [Str "c"; Str "d"] 0 0 "a" Hin eq_refl).
Defined.

End F64.
